(** * A hash-linked ledger with proof-of-work mining

    Shallow embedding of package [blockchain] (blocks, mining, ledger
    construction, append and validation) together with the pieces of the Go
    standard library the package calls: [crypto/sha256], [fmt.Sprintf "%x"],
    [strconv.Itoa], [strings.Repeat] and [strings.HasPrefix].

    Go strings are byte strings; they are modelled by [string] (lists of
    8-bit [ascii]).  Go's [int] is the 64-bit signed integer of the usual
    targets and is modelled by [Z] with the wrap-around written out. *)

From Stdlib Require Import ZArith List String Ascii Bool Lia DecimalString.
Import ListNotations.
Open Scope string_scope.
Open Scope list_scope.
Open Scope Z_scope.

(** ** crypto/sha256 *)

Module SHA256.

Definition w32 (x : Z) : Z := Z.land x 0xffffffff.
Definition add32 (x y : Z) : Z := w32 (x + y).
Definition rotr (n x : Z) : Z :=
  Z.lor (Z.shiftr x n) (w32 (Z.shiftl x (32 - n))).
Definition not32 (x : Z) : Z := Z.lxor x 0xffffffff.

Definition Ch (x y z : Z) : Z := Z.lxor (Z.land x y) (Z.land (not32 x) z).
Definition Maj (x y z : Z) : Z :=
  Z.lxor (Z.lxor (Z.land x y) (Z.land x z)) (Z.land y z).
Definition Sigma0 (x : Z) : Z := Z.lxor (Z.lxor (rotr 2 x) (rotr 13 x)) (rotr 22 x).
Definition Sigma1 (x : Z) : Z := Z.lxor (Z.lxor (rotr 6 x) (rotr 11 x)) (rotr 25 x).
Definition sigma0 (x : Z) : Z := Z.lxor (Z.lxor (rotr 7 x) (rotr 18 x)) (Z.shiftr x 3).
Definition sigma1 (x : Z) : Z := Z.lxor (Z.lxor (rotr 17 x) (rotr 19 x)) (Z.shiftr x 10).

(** The round constants are the first 32 bits of the fractional parts of
    the cube roots of the first 64 primes, and the initial chaining values
    those of the square roots of the first 8. *)
Definition is_prime (n : nat) : bool :=
  forallb (fun k => negb (n mod k =? 0)%nat) (seq 2 (n - 2)).

Definition primes : list Z :=
  Eval vm_compute in map Z.of_nat (filter is_prime (seq 2 310)).

(** Largest [r] below [2 ^ bits] above [acc] with [r ^ 3 <= n], bit by bit. *)
Fixpoint cube_root (bits : nat) (n acc : Z) : Z :=
  match bits with
  | O => acc
  | S bits' =>
      let r := acc + Z.shiftl 1 (Z.of_nat bits') in
      cube_root bits' n (if r * r * r <=? n then r else acc)
  end.

Definition K : list Z :=
  Eval vm_compute in
    map (fun p => Z.land (cube_root 36 (Z.shiftl p 96) 0) 0xffffffff) primes.

(** The eight working variables / chaining values. *)
Record digest : Type := Digest
  { h0 : Z; h1 : Z; h2 : Z; h3 : Z; h4 : Z; h5 : Z; h6 : Z; h7 : Z }.

Definition root_word (i : nat) : Z :=
  Z.land (Z.sqrt (Z.shiftl (nth i primes 0) 64)) 0xffffffff.

Definition init : digest :=
  Eval vm_compute in
    Digest (root_word 0) (root_word 1) (root_word 2) (root_word 3)
           (root_word 4) (root_word 5) (root_word 6) (root_word 7).

Definition round (s : digest) (k w : Z) : digest :=
  let t1 := add32 (add32 (add32 (add32 (h7 s) (Sigma1 (h4 s)))
                                (Ch (h4 s) (h5 s) (h6 s))) k) w in
  let t2 := add32 (Sigma0 (h0 s)) (Maj (h0 s) (h1 s) (h2 s)) in
  Digest (add32 t1 t2) (h0 s) (h1 s) (h2 s)
         (add32 (h3 s) t1) (h4 s) (h5 s) (h6 s).

(** [win] is the sliding window w[t..t+15] of the message schedule. *)
Fixpoint rounds (ks win : list Z) (s : digest) : digest :=
  match ks, win with
  | k :: ks', w :: rest =>
      let next := add32 (add32 (add32 (sigma1 (nth 14 win 0)) (nth 9 win 0))
                               (sigma0 (nth 1 win 0))) w in
      rounds ks' (rest ++ [next]) (round s k w)
  | _, _ => s
  end.

Fixpoint be_words (bytes : list Z) (n : nat) : list Z :=
  match n, bytes with
  | S n', b0 :: b1 :: b2 :: b3 :: rest =>
      (Z.lor (Z.lor (Z.lor (Z.shiftl b0 24) (Z.shiftl b1 16)) (Z.shiftl b2 8)) b3)
        :: be_words rest n'
  | _, _ => []
  end.

Definition block (s : digest) (chunk : list Z) : digest :=
  let r := rounds K (be_words chunk 16) s in
  Digest (add32 (h0 s) (h0 r)) (add32 (h1 s) (h1 r)) (add32 (h2 s) (h2 r))
         (add32 (h3 s) (h3 r)) (add32 (h4 s) (h4 r)) (add32 (h5 s) (h5 r))
         (add32 (h6 s) (h6 r)) (add32 (h7 s) (h7 r)).

Fixpoint blocks (n : nat) (s : digest) (bytes : list Z) : digest :=
  match n with
  | O => s
  | S n' => blocks n' (block s (firstn 64 bytes)) (skipn 64 bytes)
  end.

Definition be_bytes (width : nat) (x : Z) : list Z :=
  map (fun i => Z.land (Z.shiftr x (8 * Z.of_nat i)) 0xff) (rev (seq 0 width)).

Definition pad (msg : list Z) : list Z :=
  let len := Z.of_nat (List.length msg) in
  let zeros := Z.to_nat ((55 - len) mod 64) in
  msg ++ [0x80] ++ repeat 0 zeros ++ be_bytes 8 (8 * len).

Definition word_bytes (x : Z) : list Z :=
  [ Z.land (Z.shiftr x 24) 0xff; Z.land (Z.shiftr x 16) 0xff;
    Z.land (Z.shiftr x 8) 0xff; Z.land x 0xff ].

(** [sha256.Sum256]: the 32-byte digest of [msg]. *)
Definition Sum256 (msg : list Z) : list Z :=
  let p := pad msg in
  let d := blocks (List.length p / 64) init p in
  word_bytes (h0 d) ++ word_bytes (h1 d) ++ word_bytes (h2 d) ++ word_bytes (h3 d)
    ++ word_bytes (h4 d) ++ word_bytes (h5 d) ++ word_bytes (h6 d) ++ word_bytes (h7 d).

End SHA256.

(** ** Strings, as the Go library functions the package uses see them *)

(** [[]byte(s)] *)
Definition bytes_of_string (s : string) : list Z :=
  map (fun c => Z.of_N (N_of_ascii c)) (list_ascii_of_string s).

Definition hex_digit (n : Z) : ascii :=
  nth (Z.to_nat n) (list_ascii_of_string "0123456789abcdef") "0"%char.

(** [fmt.Sprintf("%x", bs)] on a byte array: two lowercase digits per byte. *)
Fixpoint Sprintf_x (bs : list Z) : string :=
  match bs with
  | [] => EmptyString
  | b :: rest =>
      String (hex_digit (Z.shiftr b 4)) (String (hex_digit (Z.land b 0xf)) (Sprintf_x rest))
  end.

Definition sha256_hex (s : string) : string :=
  Sprintf_x (SHA256.Sum256 (bytes_of_string s)).

(** [strconv.Itoa] *)
Definition Itoa (i : Z) : string := NilZero.string_of_int (Z.to_int i).

(** Go's [int] arithmetic wraps around silently. *)
Definition wrap_int (x : Z) : Z := (x + 2 ^ 63) mod 2 ^ 64 - 2 ^ 63.

(** ** Outcome of a call

    A call returns a value, is unwound by a run-time panic (or ended by a
    fatal error of the runtime, which is recorded with its message in the
    same way), or is still running when the steps allowed to it are used
    up. *)

Inductive Outcome (A : Type) : Type :=
| Done (a : A)
| Panic (msg : string)
| Running.

Arguments Done {A} a.
Arguments Panic {A} msg.
Arguments Running {A}.

Definition bind {A B : Type} (m : Outcome A) (k : A -> Outcome B) : Outcome B :=
  match m with
  | Done a => k a
  | Panic msg => Panic msg
  | Running => Running
  end.

Notation "x <- m ;; k" := (bind m (fun x => k))
  (at level 61, m at next level, right associativity).

Fixpoint repeat_string (s : string) (n : nat) : string :=
  match n with
  | O => EmptyString
  | S n' => (s ++ repeat_string s n')%string
  end.

(** [strings.HasPrefix s prefix] *)
Definition HasPrefix (s prefix : string) : bool := String.prefix prefix s.

(** [l[i]] with Go's bounds check. *)
Definition index {A : Type} (l : list A) (i : Z) : Outcome A :=
  if (i <? 0) || (Z.of_nat (List.length l) <=? i) then Panic "index out of range"
  else match nth_error l (Z.to_nat i) with
       | Some a => Done a
       | None => Panic "index out of range"
       end.

(** [l[low:]] with Go's bounds check. *)
Definition slice_from {A : Type} (l : list A) (low : nat) : Outcome (list A) :=
  if (List.length l <? low)%nat then Panic "slice bounds out of range"
  else Done (skipn low l).

(** Number of ['0'] characters a string starts with. *)
Fixpoint leading_zeros (s : string) : nat :=
  match s with
  | String "0"%char rest => S (leading_zeros rest)
  | _ => O
  end.

(** ** What the package takes from the Go runtime

    [time.Time] with its [String] method, [float64], and [json.Marshal] on
    the block payload are library code; the package only passes their values
    along.  [json_Marshal] returns [None] where [json.Marshal] returns an
    error (a NaN or infinite amount).

    [alloc_failure n] is what becomes of the request of [strings.Repeat] for
    a result of [n] bytes: [None] when it is granted, and otherwise the
    message the call ends with, which depends on the Go version and on the
    machine ("strings: Repeat output length overflow", "makeslice: len out
    of range" above the allocation limit of the runtime, or the runtime's
    "out of memory").  A request that is granted is granted for every
    smaller length, and a runtime that runs the package has room for the 64
    bytes of a digest, which [calculateHash] asks for on every call. *)

Inductive Value (float64 : Type) : Type :=
| VString (s : string)
| VFloat (f : float64).

Arguments VString {float64} s.
Arguments VFloat {float64} f.

Class Runtime : Type := {
  float64 : Type;
  Time : Type;
  Time_String : Time -> string;
  json_Marshal : option (list (string * Value float64)) -> option string;
  alloc_failure : Z -> option string;
  alloc_monotone :
    forall n m : Z, n <= m -> alloc_failure m = None -> alloc_failure n = None;
  alloc_digest : alloc_failure 64 = None
}.

(** [strings.Repeat]: counts 0 and 1 are answered without a new string
    being built; a negative count panics; otherwise the result is built in
    a buffer of [len(s) * count] bytes, if the runtime grants it. *)
Definition strings_Repeat {RT : Runtime} (s : string) (count : Z) : Outcome string :=
  if count <? 0 then Panic "strings: negative Repeat count"
  else if count <=? 1 then Done (repeat_string s (Z.to_nat count))
  else match alloc_failure (Z.of_nat (String.length s) * count) with
       | Some msg => Panic msg
       | None => Done (repeat_string s (Z.to_nat count))
       end.

(** ** The package *)

Section Blockchain.

Context {RT : Runtime}.

(** A nil map is [None]; a map literal lists its entries. *)
Definition Data : Type := option (list (string * Value float64)).

Record Block : Type := mkBlock {
  data : Data;
  hash : string;
  previousHash : string;
  timestamp : Time;
  pow : Z
}.

Record Blockchain : Type := mkBlockchain {
  genesisBlock : Block;
  chain : list Block;
  difficulty : Z
}.

Definition set_pow (b : Block) (p : Z) : Block :=
  mkBlock (data b) (hash b) (previousHash b) (timestamp b) p.

Definition set_hash (b : Block) (h : string) : Block :=
  mkBlock (data b) h (previousHash b) (timestamp b) (pow b).

Definition set_chain (b : Blockchain) (c : list Block) : Blockchain :=
  mkBlockchain (genesisBlock b) c (difficulty b).

Definition calculateHash (b : Block) : string :=
  let data := match json_Marshal (data b) with Some bytes => bytes | None => EmptyString end in
  let blockData :=
    (previousHash b ++ data ++ Time_String (timestamp b) ++ Itoa (pow b))%string in
  let blockHash := SHA256.Sum256 (bytes_of_string blockData) in
  Sprintf_x blockHash.

(** A method call as a transformer of the receiver: [calculateHash] has a
    value receiver and assigns to nothing, so the caller's block is
    returned as it was. *)
Definition call_calculateHash (b : Block) : string * Block :=
  (calculateHash b, b).

(** One pass through the body of the loop of [mine]. *)
Definition mine_body (b : Block) : Block :=
  let b1 := set_pow b (wrap_int (pow b + 1)) in
  set_hash b1 (calculateHash b1).

(** The loop of [mine].  [fuel] bounds the number of times the loop
    condition is evaluated; [n] counts the passes through the body, each of
    which computes one hash. *)
Fixpoint mine_loop (fuel : nat) (difficulty : Z) (b : Block) (n : nat)
  : Outcome (Block * nat) :=
  match fuel with
  | O => Running
  | S fuel' =>
      target <- strings_Repeat "0" difficulty ;;
      if negb (HasPrefix (hash b) target)
      then mine_loop fuel' difficulty (mine_body b) (S n)
      else Done (b, n)
  end.

(** [mine] has a pointer receiver; the block after the call is returned. *)
Definition mine (fuel : nat) (difficulty : Z) (b : Block) : Outcome Block :=
  r <- mine_loop fuel difficulty b 0 ;; Done (fst r).

(** [now] is the reading of [time.Now()]. *)
Definition CreateBlockchain (now : Time) (difficulty : Z) : Blockchain :=
  let genesisBlock := mkBlock None "0" EmptyString now 0 in
  mkBlockchain genesisBlock [genesisBlock] difficulty.

(** [now] is the reading of [time.Now()], [fuel] the steps allowed to
    [mine]; the ledger after the call is returned. *)
Definition AddTransaction (fuel : nat) (now : Time) (b : Blockchain)
           (from to : string) (amount : float64) : Outcome Blockchain :=
  let blockData :=
    Some [("from", VString from); ("to", VString to); ("amount", VFloat amount)] in
  lastBlock <- index (chain b) (Z.of_nat (List.length (chain b)) - 1) ;;
  let newBlock := mkBlock blockData EmptyString (hash lastBlock) now 0 in
  newBlock <- mine fuel (difficulty b) newBlock ;;
  Done (set_chain b (chain b ++ [newBlock])).

(** The test of the [if] in [IsValid]. *)
Definition pair_fails (previousBlock currentBlock : Block) : bool :=
  negb (hash currentBlock =? calculateHash currentBlock)%string
  || negb (previousHash currentBlock =? hash previousBlock)%string.

(** The [for] loop of [IsValid] over the indices [idxs] still to visit. *)
Fixpoint IsValid_loop (chain : list Block) (idxs : list nat) : Outcome bool :=
  match idxs with
  | [] => Done true
  | i :: rest =>
      previousBlock <- index chain (Z.of_nat i) ;;
      currentBlock <- index chain (Z.of_nat i + 1) ;;
      if pair_fails previousBlock currentBlock then Done false
      else IsValid_loop chain rest
  end.

Definition IsValid (b : Blockchain) : Outcome bool :=
  tail <- slice_from (chain b) 1 ;;
  IsValid_loop (chain b) (seq 0 (List.length tail)).

(** Ledgers a caller can obtain at difficulty [d]: [CreateBlockchain d]
    followed by calls of [AddTransaction] that returned. *)
Inductive reachable (d : Z) : Blockchain -> Prop :=
| reach_create (now : Time) : reachable d (CreateBlockchain now d)
| reach_add (b b' : Blockchain) (fuel : nat) (now : Time)
            (from to : string) (amount : float64) :
    reachable d b ->
    AddTransaction fuel now b from to amount = Done b' ->
    reachable d b'.

(** *** Properties of blocks and chains the statements below speak of *)

(** The two checks [IsValid] makes on an adjacent pair. *)
Definition pair_passes (previous current : Block) : Prop :=
  hash current = calculateHash current /\ previousHash current = hash previous.

Definition every_pair_passes (c : list Block) : Prop :=
  forall (i : nat) (previous current : Block),
    nth_error c i = Some previous ->
    nth_error c (S i) = Some current ->
    pair_passes previous current.

Definition some_pair_fails (c : list Block) : Prop :=
  exists (i : nat) (previous current : Block),
    nth_error c i = Some previous /\
    nth_error c (S i) = Some current /\
    (hash current <> calculateHash current \/ previousHash current <> hash previous).

Definition pair_ok_at (c : list Block) (i : nat) : bool :=
  match nth_error c i, nth_error c (S i) with
  | Some previous, Some current => negb (pair_fails previous current)
  | _, _ => true
  end.

(** The string [strings.Repeat("0", d)] for [d >= 0]. *)
Definition zeros (d : Z) : string := repeat_string "0" (Z.to_nat d).

(** The block [AddTransaction] hands to [mine]. *)
Definition fresh_block (previous : string) (now : Time)
           (from to : string) (amount : float64) : Block :=
  mkBlock (Some [("from", VString from); ("to", VString to); ("amount", VFloat amount)])
          EmptyString previous now 0.

End Blockchain.

(** ** A runtime to run the package on

    Amounts are integral [float64] values and are printed as decimal
    integers, as [encoding/json] prints those of magnitude below 10^21; a
    clock reading is given by the text its [String] method prints.  Map keys
    are written in sorted order, as [encoding/json] does; strings are written
    between quotes as they are, which is what [encoding/json] does for
    letters, digits and spaces.  [marshal] is therefore exact on payloads
    whose names are made of such characters and whose amount is an integer
    below 10^21 that a [float64] holds; on others (a quote, a backslash, a
    control character, one of <, > and &, a larger amount) [encoding/json]
    writes an escape or an exponent that [marshal] does not, and no run
    below uses one.  The runtime is a 64-bit one with memory to spare: a
    buffer is refused only above the allocation limit 2^48. *)

Module Demo.

Definition dquote : string := String (ascii_of_nat 34) EmptyString.

Definition marshal_value (v : Value Z) : string :=
  match v with
  | VString s => (dquote ++ s ++ dquote)%string
  | VFloat f => Itoa f
  end.

Fixpoint insert_entry (e : string * Value Z) (l : list (string * Value Z))
  : list (string * Value Z) :=
  match l with
  | [] => [e]
  | e' :: rest =>
      if String.leb (fst e) (fst e') then e :: l else e' :: insert_entry e rest
  end.

Definition sort_entries (l : list (string * Value Z)) : list (string * Value Z) :=
  fold_right insert_entry [] l.

Definition marshal_entry (e : string * Value Z) : string :=
  (dquote ++ fst e ++ dquote ++ ":" ++ marshal_value (snd e))%string.

Definition marshal (d : option (list (string * Value Z))) : option string :=
  match d with
  | None => Some "null"
  | Some entries =>
      Some ("{" ++ String.concat "," (map marshal_entry (sort_entries entries)) ++ "}")%string
  end.

Definition maxAlloc : Z := 2 ^ 48.

Definition refuse_above_maxAlloc (n : Z) : option string :=
  if maxAlloc <? n then Some "makeslice: len out of range" else None.

#[export] Instance runtime : Runtime := {|
  float64 := Z;
  Time := string;
  Time_String := fun t => t;
  json_Marshal := marshal;
  alloc_failure := refuse_above_maxAlloc;
  alloc_monotone := ltac:(abstract (
    unfold refuse_above_maxAlloc; intros n m Hnm;
    destruct (Z.ltb_spec maxAlloc m); [discriminate|]; intros _;
    destruct (Z.ltb_spec maxAlloc n); [lia|reflexivity]));
  alloc_digest := eq_refl
|}.

Definition clock (rendering : string) : Time := rendering.
Definition amount (value : Z) : float64 := value.

Definition t0 : Time := clock "2024-05-01 12:00:00.000000001 +0000 UTC m=+0.000012345".
Definition t1 : Time := clock "2024-05-01 12:00:00.000150002 +0000 UTC m=+0.000162346".
Definition t2 : Time := clock "2024-05-01 12:00:00.004150003 +0000 UTC m=+0.004162347".

(** The block mined for the first transaction after [CreateBlockchain] at [t0]. *)
Definition newBlock : Block := fresh_block "0" t1 "Alice" "Bob" (amount 5).

(** [CreateBlockchain(0)] and [CreateBlockchain(1)], each followed by
    [AddTransaction("Alice", "Bob", 5)]. *)
Definition ledger0 : Blockchain :=
  set_chain (CreateBlockchain t0 0) [mkBlock None "0" EmptyString t0 0; newBlock].

Definition ledger1 : Blockchain :=
  set_chain (CreateBlockchain t0 1)
    [ mkBlock None "0" EmptyString t0 0;
      mkBlock (data newBlock)
              "075458850b8237f269012a75b757300eae9654379f8c94af1999da671cda717c"
              "0" t1 6 ].

End Demo.

(** ** Callers of the package *)

Section Callers.

Context {RT : Runtime}.

(** One call of [AddTransaction]: its arguments and the reading of
    [time.Now()] during it. *)
Record Transaction : Type := mkTransaction {
  tx_now : Time;
  tx_from : string;
  tx_to : string;
  tx_amount : float64
}.

(** The payload [AddTransaction] builds for a call. *)
Definition payload (tx : Transaction) : Data :=
  Some [("from", VString (tx_from tx)); ("to", VString (tx_to tx));
        ("amount", VFloat (tx_amount tx))].

(** Calls of [AddTransaction] on one ledger, one after the other; a call
    that does not return ends the sequence. *)
Fixpoint AddTransactions (fuel : nat) (b : Blockchain) (txs : list Transaction)
  : Outcome Blockchain :=
  match txs with
  | [] => Done b
  | tx :: rest =>
      b' <- AddTransaction fuel (tx_now tx) b (tx_from tx) (tx_to tx) (tx_amount tx) ;;
      AddTransactions fuel b' rest
  end.

(** [fmt.Println] of a boolean: the text written to standard output. *)
Definition Println (v : bool) : string :=
  ((if v then "true" else "false") ++ String (ascii_of_nat 10) EmptyString)%string.

(** [main] of the demo programs.  [t0], [t1], [t2] are the readings of
    [time.Now()] in the three calls, [five] and [two] the [float64] values
    of the constants 5 and 2; the result is what is printed. *)
Definition main (fuel : nat) (t0 t1 t2 : Time) (five two : float64) : Outcome string :=
  let myBlockchain := CreateBlockchain t0 2 in
  myBlockchain <- AddTransaction fuel t1 myBlockchain "Alice" "Bob" five ;;
  myBlockchain <- AddTransaction fuel t2 myBlockchain "John" "Bob" two ;;
  valid <- IsValid myBlockchain ;;
  Done (Println valid).

(** *** Properties of blocks and chains the further statements speak of *)

Definition set_previousHash (b : Block) (p : string) : Block :=
  mkBlock (data b) (hash b) p (timestamp b) (pow b).

(** The block [mine] holds after [k >= 1] passes through its loop body,
    started on [b]. *)
Definition candidate (b : Block) (k : nat) : Block :=
  let b1 := set_pow b (wrap_int (pow b + Z.of_nat k)) in
  set_hash b1 (calculateHash b1).

(** Every block after the first names the hash of the block before it. *)
Definition linked (c : list Block) : Prop :=
  forall (i : nat) (previous current : Block),
    nth_error c i = Some previous ->
    nth_error c (S i) = Some current ->
    previousHash current = hash previous.

(** [c'] is [c] with the block at index [i] replaced by [x]. *)
Definition replaced_at (c c' : list Block) (i : nat) (x : Block) : Prop :=
  List.length c' = List.length c
  /\ nth_error c' i = Some x
  /\ forall j, j <> i -> nth_error c' j = nth_error c j.

Definition is_lower_hex (c : ascii) : bool :=
  existsb (Ascii.eqb c) (list_ascii_of_string "0123456789abcdef").

End Callers.

Module DemoMain.

Definition t2 : Time :=
  Demo.clock "2024-05-01 12:00:00.004150368 +0000 UTC m=+0.004162712".

(** [CreateBlockchain(2)] followed by the two calls of [main]. *)
Definition ledger2 : Blockchain :=
  set_chain (CreateBlockchain Demo.t0 2)
    [ mkBlock None "0" EmptyString Demo.t0 0;
      mkBlock (data Demo.newBlock)
              "00f909c7421a2ade32f838ad0fa1fc51b3a3320f39d61c84752f14caa6b6be89"
              "0" Demo.t1 149;
      mkBlock (payload (mkTransaction t2 "John" "Bob" (Demo.amount 2)))
              "00089495c8eaf0d0a38789f72266481ae243b22ba72d27f10f7652e1b784fc62"
              "00f909c7421a2ade32f838ad0fa1fc51b3a3320f39d61c84752f14caa6b6be89"
              t2 1 ].

(** [CreateBlockchain(1)] followed by two calls of [AddTransaction]. *)
Definition transfers : list Transaction :=
  [ mkTransaction Demo.t1 "Alice" "Bob" (Demo.amount 5);
    mkTransaction Demo.t2 "John" "Bob" (Demo.amount 2) ].

Definition mined1 : Block :=
  mkBlock (data Demo.newBlock)
          "075458850b8237f269012a75b757300eae9654379f8c94af1999da671cda717c"
          "0" Demo.t1 6.

Definition mined2 : Block :=
  mkBlock (payload (mkTransaction Demo.t2 "John" "Bob" (Demo.amount 2)))
          "0f1daec94f81af8ab5665c5d45b6055f2334a299c090c8182b40356ea3e808f8"
          "075458850b8237f269012a75b757300eae9654379f8c94af1999da671cda717c"
          Demo.t2 16.

Definition ledger3 : Blockchain :=
  set_chain (CreateBlockchain Demo.t0 1)
    [mkBlock None "0" EmptyString Demo.t0 0; mined1; mined2].

(** [ledger3] after an edit of its second block. *)
Definition edited (x : Block) : Blockchain :=
  set_chain ledger3 [mkBlock None "0" EmptyString Demo.t0 0; x; mined2].

(** The second block of [ledger3] with the amount overwritten by 999. *)
Definition overwritten : Block :=
  mkBlock (payload (mkTransaction Demo.t1 "Alice" "Bob" (Demo.amount 999)))
          (hash mined1) (previousHash mined1) (timestamp mined1) (pow mined1).

End DemoMain.

(** ** The model of crypto/sha256 on the standard test vectors *)

Example sha256_empty :
  sha256_hex EmptyString
  = "e3b0c44298fc1c149afbf4c8996fb92427ae41e4649b934ca495991b7852b855".
Proof. vm_compute. reflexivity. Qed.

Example sha256_abc :
  sha256_hex "abc"
  = "ba7816bf8f01cfea414140de5dae2223b00361a396177a9cb410ff61f20015ad".
Proof. vm_compute. reflexivity. Qed.

Example sha256_two_blocks :
  sha256_hex "abcdbcdecdefdefgefghfghighijhijkijkljklmklmnlmnomnopnopq"
  = "248d6a61d20638b8e5c026930c3e6039a33ce45964ff2167f6ecedd419db06c1".
Proof. vm_compute. reflexivity. Qed.

(** ** Library facts *)

Lemma Sum256_length (msg : list Z) : List.length (SHA256.Sum256 msg) = 32%nat.
Proof.
  unfold SHA256.Sum256.
  generalize (SHA256.blocks (List.length (SHA256.pad msg) / 64) SHA256.init (SHA256.pad msg)).
  intro d. reflexivity.
Qed.

Lemma Sprintf_x_length (bs : list Z) :
  String.length (Sprintf_x bs) = (2 * List.length bs)%nat.
Proof.
  induction bs as [|b rest IH]; simpl; [reflexivity|].
  rewrite IH. lia.
Qed.

Lemma prefix_length (p s : string) :
  String.prefix p s = true -> (String.length p <= String.length s)%nat.
Proof.
  revert s. induction p as [|c p IH]; intros s H; simpl; [lia|].
  destruct s as [|c' s]; [discriminate H|].
  change (String.prefix (String c p) (String c' s))
    with (if Ascii.ascii_dec c c' then String.prefix p s else false) in H.
  destruct (Ascii.ascii_dec c c'); [|discriminate].
  apply IH in H. simpl. lia.
Qed.

Lemma repeat_zero_length (n : nat) : String.length (repeat_string "0" n) = n.
Proof. induction n; simpl; congruence. Qed.

Lemma leading_zeros_other (c : ascii) (s : string) :
  c <> "0"%char -> leading_zeros (String c s) = O.
Proof.
  intro Hne. destruct c as [[] [] [] [] [] [] [] []]; try reflexivity.
  exfalso. apply Hne. reflexivity.
Qed.

Lemma prefix_zeros_leading (n : nat) (s : string) :
  String.prefix (repeat_string "0" n) s = true <-> (n <= leading_zeros s)%nat.
Proof.
  revert s. induction n as [|n IH]; intros s.
  - split; [simpl; lia|]. destruct s; reflexivity.
  - change (repeat_string "0" (S n)) with (String "0" (repeat_string "0" n)).
    destruct s as [|c s].
    + simpl. split; [discriminate|lia].
    + change (String.prefix (String "0" (repeat_string "0" n)) (String c s))
        with (if Ascii.ascii_dec "0" c
              then String.prefix (repeat_string "0" n) s else false).
      destruct (Ascii.ascii_dec "0" c) as [<-|Hne].
      * rewrite IH. change (leading_zeros (String "0" s)) with (S (leading_zeros s)). lia.
      * rewrite leading_zeros_other by congruence. split; [discriminate|lia].
Qed.

Lemma index_of_nat {A : Type} (l : list A) (i : nat) (a : A) :
  nth_error l i = Some a -> index l (Z.of_nat i) = Done a.
Proof.
  intro H. unfold index.
  assert (i < List.length l)%nat by (apply nth_error_Some; congruence).
  destruct (Z.ltb_spec (Z.of_nat i) 0); [lia|].
  destruct (Z.leb_spec (Z.of_nat (List.length l)) (Z.of_nat i)); [lia|].
  simpl. rewrite Nat2Z.id, H. reflexivity.
Qed.

Lemma index_succ_of_nat {A : Type} (l : list A) (i : nat) (a : A) :
  nth_error l (S i) = Some a -> index l (Z.of_nat i + 1) = Done a.
Proof.
  intro H. replace (Z.of_nat i + 1) with (Z.of_nat (S i)) by lia.
  apply index_of_nat, H.
Qed.

(** ** The package: hashing and validation *)

Section Validation.

Context {RT : Runtime}.

Lemma calculateHash_length (b : Block) :
  String.length (calculateHash b) = 64%nat.
Proof.
  unfold calculateHash. rewrite Sprintf_x_length, Sum256_length. reflexivity.
Qed.

Lemma calculateHash_not_empty (b : Block) : EmptyString <> calculateHash b.
Proof.
  intro H. pose proof (calculateHash_length b) as L.
  rewrite <- H in L. discriminate L.
Qed.

Lemma pair_fails_false (previous current : Block) :
  pair_fails previous current = false <-> pair_passes previous current.
Proof.
  unfold pair_fails, pair_passes.
  rewrite orb_false_iff, !negb_false_iff, !String.eqb_eq. tauto.
Qed.

Lemma pair_fails_true (previous current : Block) :
  pair_fails previous current = true <->
  (hash current <> calculateHash current \/ previousHash current <> hash previous).
Proof.
  unfold pair_fails.
  rewrite orb_true_iff, !negb_true_iff, !String.eqb_neq. tauto.
Qed.

(** On indices within range the loop panics nowhere and computes the
    conjunction of the pair checks. *)
Lemma IsValid_loop_forallb (c : list Block) (idxs : list nat) :
  Forall (fun i => (S i < List.length c)%nat) idxs ->
  IsValid_loop c idxs = Done (forallb (pair_ok_at c) idxs).
Proof.
  induction 1 as [|i rest Hi _ IH]; [reflexivity|].
  destruct (nth_error c i) as [previous|] eqn:Ep;
    [|apply nth_error_None in Ep; lia].
  destruct (nth_error c (S i)) as [current|] eqn:Ec;
    [|apply nth_error_None in Ec; lia].
  cbn [IsValid_loop forallb]. unfold pair_ok_at at 1. rewrite Ep, Ec.
  rewrite (index_of_nat _ _ _ Ep), (index_succ_of_nat _ _ _ Ec). cbn [bind].
  destruct (pair_fails previous current); [reflexivity|exact IH].
Qed.

Lemma forallb_pair_ok_true (c : list Block) (n : nat) :
  (forall i, (S i < List.length c)%nat -> (i < n)%nat) ->
  forallb (pair_ok_at c) (seq 0 n) = true <-> every_pair_passes c.
Proof.
  intro Hn. rewrite forallb_forall. unfold every_pair_passes. split.
  - intros H i previous current Ep Ec.
    assert (S i < List.length c)%nat as Hi by (apply nth_error_Some; congruence).
    specialize (H i). unfold pair_ok_at in H. rewrite Ep, Ec in H.
    apply pair_fails_false, negb_true_iff, H, in_seq. specialize (Hn i Hi). lia.
  - intros H i _. unfold pair_ok_at.
    destruct (nth_error c i) as [previous|] eqn:Ep; [|reflexivity].
    destruct (nth_error c (S i)) as [current|] eqn:Ec; [|reflexivity].
    apply negb_true_iff, pair_fails_false, (H i); assumption.
Qed.

Lemma forallb_pair_ok_false (c : list Block) (idxs : list nat) :
  forallb (pair_ok_at c) idxs = false ->
  some_pair_fails c.
Proof.
  induction idxs as [|i rest IH]; [discriminate|].
  cbn [forallb]. rewrite andb_false_iff. intros [H|H]; [|exact (IH H)].
  unfold pair_ok_at in H.
  destruct (nth_error c i) as [previous|] eqn:Ep; [|discriminate].
  destruct (nth_error c (S i)) as [current|] eqn:Ec; [|discriminate].
  exists i, previous, current. repeat split; try assumption.
  apply pair_fails_true, negb_false_iff, H.
Qed.

Lemma some_pair_fails_not_every (c : list Block) :
  some_pair_fails c -> ~ every_pair_passes c.
Proof.
  intros (i & previous & current & Ep & Ec & Hf) H.
  destruct (H i previous current Ep Ec) as [H1 H2]. tauto.
Qed.

(** [IsValid] on a ledger that holds at least its genesis block. *)
Lemma IsValid_forallb (b : Blockchain) :
  chain b <> [] ->
  IsValid b = Done (forallb (pair_ok_at (chain b)) (seq 0 (List.length (chain b) - 1))).
Proof.
  intro Hne. unfold IsValid, slice_from.
  destruct (chain b) as [|g tail] eqn:E; [congruence|].
  cbn [List.length Nat.ltb Nat.leb skipn bind].
  replace (S (List.length tail) - 1)%nat with (List.length tail) by lia.
  apply IsValid_loop_forallb, Forall_forall.
  intros i Hi. apply in_seq in Hi. cbn [List.length]. lia.
Qed.

(** The loop returns at the first failing pair: the indices after it are
    never looked at. *)
Lemma IsValid_loop_early_return (c : list Block) (visited rest : list nat)
      (i : nat) (previous current : Block) :
  IsValid_loop c visited = Done true ->
  nth_error c i = Some previous ->
  nth_error c (S i) = Some current ->
  pair_fails previous current = true ->
  IsValid_loop c (visited ++ i :: rest) = Done false.
Proof.
  intros Hv Ep Ec Hf. induction visited as [|v vs IH].
  - cbn [app IsValid_loop].
    rewrite (index_of_nat _ _ _ Ep), (index_succ_of_nat _ _ _ Ec). cbn [bind].
    rewrite Hf. reflexivity.
  - cbn [app IsValid_loop] in *.
    destruct (index c (Z.of_nat v)) as [pv| |]; cbn [bind] in *; try discriminate.
    destruct (index c (Z.of_nat v + 1)) as [cv| |]; cbn [bind] in *; try discriminate.
    destruct (pair_fails pv cv); [discriminate|]. exact (IH Hv).
Qed.

Lemma IsValid_true_iff (b : Blockchain) :
  chain b <> [] ->
  IsValid b = Done true <-> every_pair_passes (chain b).
Proof.
  intro Hne. rewrite (IsValid_forallb b Hne).
  rewrite <- (forallb_pair_ok_true (chain b) (List.length (chain b) - 1)) by (intros; lia).
  split; congruence.
Qed.

Lemma IsValid_false_iff (b : Blockchain) :
  chain b <> [] ->
  IsValid b = Done false <-> some_pair_fails (chain b).
Proof.
  intro Hne. split.
  - rewrite (IsValid_forallb b Hne). intro H.
    apply forallb_pair_ok_false with (idxs := seq 0 (List.length (chain b) - 1)).
    congruence.
  - intro Hf. apply some_pair_fails_not_every in Hf.
    rewrite <- (IsValid_true_iff b Hne) in Hf.
    rewrite (IsValid_forallb b Hne) in *.
    destruct (forallb _ _); [congruence|reflexivity].
Qed.

(** C1. On a ledger whose block sequence holds its genesis block,
    [IsValid] returns true exactly when every adjacent pair
    (previous, current) from the second block onward has
    [current.hash = current.calculateHash()] and
    [current.previousHash = previous.hash]; it returns false exactly when
    some pair fails one of the two checks; and the loop returns false at
    the first failing pair, whatever indices would have followed. *)
Theorem IsValid_iff_every_pair (b : Blockchain) :
  chain b <> [] ->
  (IsValid b = Done true <-> every_pair_passes (chain b))
  /\ (IsValid b = Done false <-> some_pair_fails (chain b))
  /\ (forall (visited rest : list nat) (i : nat) (previous current : Block),
         IsValid_loop (chain b) visited = Done true ->
         nth_error (chain b) i = Some previous ->
         nth_error (chain b) (S i) = Some current ->
         (hash current <> calculateHash current
          \/ previousHash current <> hash previous) ->
         IsValid_loop (chain b) (visited ++ i :: rest) = Done false).
Proof.
  intro Hne. split; [|split].
  - apply IsValid_true_iff, Hne.
  - apply IsValid_false_iff, Hne.
  - intros visited rest i previous current Hv Ep Ec Hf.
    apply IsValid_loop_early_return with previous current; try assumption.
    apply pair_fails_true, Hf.
Qed.

(** C5. Right after [CreateBlockchain(d)], for every [d], [IsValid]
    returns true: the sequence holds the genesis block only and the loop
    visits no pair. *)
Theorem IsValid_after_create (now : Time) (d : Z) :
  IsValid (CreateBlockchain now d) = Done true
  /\ seq 0 (List.length (skipn 1 (chain (CreateBlockchain now d)))) = [].
Proof. split; reflexivity. Qed.

(** C6. [calculateHash] is a function of the block's fields: two calls in
    a row return the same string and leave the block as it was, and the
    result does not depend on the stored hash but only on the payload, the
    previous hash, the timestamp and the proof. *)
Theorem calculateHash_deterministic (b : Block) :
  (let (first, b1) := call_calculateHash b in
   let (second, b2) := call_calculateHash b1 in
   first = second /\ b1 = b /\ b2 = b)
  /\ (forall h : string, calculateHash (set_hash b h) = calculateHash b)
  /\ calculateHash b
     = sha256_hex
         (previousHash b
          ++ match json_Marshal (data b) with Some bytes => bytes | None => EmptyString end
          ++ Time_String (timestamp b) ++ Itoa (pow b))%string.
Proof. repeat split. Qed.

(** C7. [CreateBlockchain(d)] returns a ledger whose genesis block has
    hash "0", no payload, the timestamp read at construction, an empty
    previous hash and proof 0; whose block sequence is exactly that block
    (length 1, at index 0); and whose difficulty is [d]. *)
Theorem CreateBlockchain_genesis (now : Time) (d : Z) :
  let b := CreateBlockchain now d in
  hash (genesisBlock b) = "0"
  /\ data (genesisBlock b) = None
  /\ timestamp (genesisBlock b) = now
  /\ previousHash (genesisBlock b) = EmptyString
  /\ pow (genesisBlock b) = 0
  /\ chain b = [genesisBlock b]
  /\ List.length (chain b) = 1%nat
  /\ index (chain b) 0 = Done (genesisBlock b)
  /\ difficulty b = d.
Proof. repeat split. Qed.

End Validation.

(** ** The package: mining and appending *)

Section Mining.

Context {RT : Runtime}.

Lemma alloc_small (n : Z) : n <= 64 -> alloc_failure n = None.
Proof. intro H. exact (alloc_monotone n 64 H alloc_digest). Qed.

Lemma Repeat_zeros (d : Z) :
  0 <= d -> alloc_failure d = None -> strings_Repeat "0" d = Done (zeros d).
Proof.
  intros Hd Ha. unfold strings_Repeat.
  destruct (Z.ltb_spec d 0); [lia|].
  destruct (d <=? 1); [reflexivity|].
  change (Z.of_nat (String.length "0")) with 1. rewrite Z.mul_1_l, Ha. reflexivity.
Qed.

Lemma Repeat_refused (d : Z) (msg : string) :
  0 <= d -> alloc_failure d = Some msg -> strings_Repeat "0" d = Panic msg.
Proof.
  intros Hd Ha. unfold strings_Repeat.
  destruct (Z.ltb_spec d 0); [lia|].
  destruct (Z.leb_spec d 1) as [Hs|_].
  - rewrite alloc_small in Ha by lia. discriminate.
  - change (Z.of_nat (String.length "0")) with 1. rewrite Z.mul_1_l, Ha. reflexivity.
Qed.

Lemma Repeat_negative (d : Z) :
  d < 0 -> strings_Repeat "0" d = Panic "strings: negative Repeat count".
Proof.
  intro Hd. unfold strings_Repeat. destruct (Z.ltb_spec d 0); [reflexivity|lia].
Qed.

Lemma mine_loop_step (fuel : nat) (d : Z) (b : Block) (n : nat) :
  0 <= d ->
  alloc_failure d = None ->
  mine_loop (S fuel) d b n
  = if negb (HasPrefix (hash b) (zeros d))
    then mine_loop fuel d (mine_body b) (S n)
    else Done (b, n).
Proof.
  intros Hd Ha. cbn [mine_loop]. rewrite Repeat_zeros by assumption. reflexivity.
Qed.

Lemma mine_loop_refused (fuel : nat) (d : Z) (b : Block) (n : nat) (msg : string) :
  0 <= d ->
  alloc_failure d = Some msg ->
  mine_loop (S fuel) d b n = Panic msg.
Proof.
  intros Hd Ha. cbn [mine_loop]. rewrite Repeat_refused with (msg := msg) by assumption.
  reflexivity.
Qed.

Lemma mine_loop_no_panic (fuel : nat) (d : Z) (b : Block) (n : nat) (msg : string) :
  0 <= d -> alloc_failure d = None -> mine_loop fuel d b n <> Panic msg.
Proof.
  intros Hd Ha. revert b n. induction fuel as [|fuel IH]; intros b n; [discriminate|].
  rewrite mine_loop_step by assumption.
  destruct (negb _); [apply IH|discriminate].
Qed.

Lemma mine_loop_negative (fuel : nat) (d : Z) (b : Block) (n : nat) :
  d < 0 ->
  mine_loop (S fuel) d b n = Panic "strings: negative Repeat count".
Proof.
  intro Hd. cbn [mine_loop]. rewrite Repeat_negative by assumption. reflexivity.
Qed.

Lemma mine_loop_done_nonneg (fuel : nat) (d : Z) (b b' : Block) (n n' : nat) :
  mine_loop fuel d b n = Done (b', n') -> 0 <= d.
Proof.
  destruct fuel; [discriminate|]. intro H.
  destruct (Z.lt_ge_cases d 0) as [Hd|Hd]; [|assumption].
  rewrite mine_loop_negative in H by assumption. discriminate.
Qed.

Lemma mine_loop_done_granted (fuel : nat) (d : Z) (b b' : Block) (n n' : nat) :
  mine_loop fuel d b n = Done (b', n') -> alloc_failure d = None.
Proof.
  intro H. pose proof (mine_loop_done_nonneg _ _ _ _ _ _ H) as Hd.
  destruct fuel; [discriminate|].
  destruct (alloc_failure d) as [msg|] eqn:Ha; [|reflexivity].
  rewrite (mine_loop_refused _ _ _ _ msg Hd Ha) in H. discriminate.
Qed.

(** What holds when the loop is left: the exit test, and the block is the
    starting block after [n' - n] passes through the body. *)
Lemma mine_loop_done (fuel : nat) (d : Z) (b b' : Block) (n n' : nat) :
  mine_loop fuel d b n = Done (b', n') ->
  HasPrefix (hash b') (zeros d) = true
  /\ exists k, n' = (n + k)%nat /\ (k < fuel)%nat /\ b' = Nat.iter k mine_body b
       /\ forall j, (j < k)%nat -> HasPrefix (hash (Nat.iter j mine_body b)) (zeros d) = false.
Proof.
  intro H. pose proof (mine_loop_done_nonneg _ _ _ _ _ _ H) as Hd.
  pose proof (mine_loop_done_granted _ _ _ _ _ _ H) as Ha.
  revert b n H. induction fuel as [|fuel IH]; intros b n H; [discriminate|].
  rewrite mine_loop_step in H by assumption.
  destruct (HasPrefix (hash b) (zeros d)) eqn:E; cbn [negb] in H.
  - injection H as <- <-. split; [assumption|].
    exists 0%nat. repeat split; try lia.
  - destruct (IH _ _ H) as (Hp & k & -> & Hk & -> & Hj). split; [assumption|].
    exists (S k). rewrite Nat.iter_succ_r. repeat split; try lia.
    intros [|j] Hlt; [exact E|]. rewrite Nat.iter_succ_r. apply Hj. lia.
Qed.


Lemma mine_done_inv (fuel : nat) (d : Z) (b b' : Block) :
  mine fuel d b = Done b' ->
  exists n', mine_loop fuel d b 0 = Done (b', n').
Proof.
  unfold mine. destruct (mine_loop fuel d b 0) as [[b1 n1]| |]; cbn [bind fst];
    try discriminate.
  intro H. injection H as <-. exists n1. reflexivity.
Qed.

Lemma zeros_length (d : Z) : String.length (zeros d) = Z.to_nat d.
Proof. apply repeat_zero_length. Qed.



Lemma fresh_no_prefix (d : Z) (b : Block) :
  0 < d -> hash b = EmptyString -> HasPrefix (hash b) (zeros d) = false.
Proof.
  intros Hd E. destruct (HasPrefix _ _) eqn:P; [|reflexivity].
  apply prefix_length in P. rewrite zeros_length, E in P. cbn in P. lia.
Qed.

Lemma mine_body_fields (b : Block) :
  data (mine_body b) = data b
  /\ previousHash (mine_body b) = previousHash b
  /\ timestamp (mine_body b) = timestamp b
  /\ hash (mine_body b) = calculateHash (mine_body b).
Proof. repeat split. Qed.

Lemma iter_mine_body_previousHash (k : nat) (b : Block) :
  previousHash (Nat.iter k mine_body b) = previousHash b.
Proof. induction k; [reflexivity|]. cbn [Nat.iter nat_rect]. exact IHk. Qed.

(** *** Appending *)

Lemma index_last {A : Type} (l : list A) :
  l <> [] ->
  exists a, index l (Z.of_nat (List.length l) - 1) = Done a
            /\ nth_error l (List.length l - 1) = Some a.
Proof.
  intro Hne. destruct (nth_error l (List.length l - 1)) as [a|] eqn:E.
  - exists a. split; [|reflexivity].
    replace (Z.of_nat (List.length l) - 1) with (Z.of_nat (List.length l - 1)).
    + apply index_of_nat, E.
    + destruct l; [congruence|]. cbn [List.length]. lia.
  - apply nth_error_None in E. destruct l; [congruence|]. cbn [List.length] in E. lia.
Qed.

Lemma AddTransaction_done_inv (fuel : nat) (now : Time) (b b' : Blockchain)
      (from to : string) (amount : float64) :
  AddTransaction fuel now b from to amount = Done b' ->
  exists lastBlock newBlock,
    nth_error (chain b) (List.length (chain b) - 1) = Some lastBlock
    /\ mine fuel (difficulty b) (fresh_block (hash lastBlock) now from to amount)
       = Done newBlock
    /\ b' = set_chain b (chain b ++ [newBlock]).
Proof.
  unfold AddTransaction. intro H.
  destruct (chain b) as [|g tail] eqn:E; [discriminate H|].
  destruct (index_last (g :: tail)) as (lastBlock & Hi & Hn); [discriminate|].
  rewrite Hi in H. cbn [bind] in H. fold (fresh_block (hash lastBlock) now from to amount) in H.
  destruct (mine _ _ _) as [newBlock| |] eqn:M; cbn [bind] in H; try discriminate.
  injection H as <-. exists lastBlock, newBlock. repeat split; assumption.
Qed.

Lemma reachable_difficulty (d : Z) (b : Blockchain) :
  reachable d b -> difficulty b = d.
Proof.
  induction 1 as [now|b b' fuel now from to amount _ IH H]; [reflexivity|].
  apply AddTransaction_done_inv in H. destruct H as (? & ? & _ & _ & ->). exact IH.
Qed.

Lemma reachable_nonempty (d : Z) (b : Blockchain) :
  reachable d b -> chain b <> [].
Proof.
  induction 1 as [now|b b' fuel now from to amount _ IH H]; [discriminate|].
  apply AddTransaction_done_inv in H. destruct H as (? & ? & _ & _ & ->).
  cbn [set_chain chain]. intro E. apply app_eq_nil in E. destruct E. discriminate.
Qed.

(** C4. Whenever [mine(d)] returns, the block's hash begins with [d]
    copies of '0', that is, it has at least [d] leading zero characters;
    hence the block a returning [AddTransaction] appends has at least as
    many leading zeros in its stored hash as the ledger's difficulty. *)
Theorem mined_hash_has_leading_zeros :
  (forall (fuel : nat) (d : Z) (b b' : Block),
      mine fuel d b = Done b' ->
      0 <= d
      /\ HasPrefix (hash b') (repeat_string "0" (Z.to_nat d)) = true
      /\ d <= Z.of_nat (leading_zeros (hash b')))
  /\ (forall (fuel : nat) (now : Time) (bc bc' : Blockchain)
             (from to : string) (amount : float64),
      AddTransaction fuel now bc from to amount = Done bc' ->
      exists newBlock,
        chain bc' = chain bc ++ [newBlock]
        /\ difficulty bc <= Z.of_nat (leading_zeros (hash newBlock))).
Proof.
  assert (forall fuel d b b', mine fuel d b = Done b' ->
            0 <= d /\ HasPrefix (hash b') (zeros d) = true
            /\ d <= Z.of_nat (leading_zeros (hash b'))) as Hmine.
  { intros fuel d b b' H. apply mine_done_inv in H. destruct H as (n' & H).
    pose proof (mine_loop_done_nonneg _ _ _ _ _ _ H) as Hd.
    apply mine_loop_done in H. destruct H as (Hp & _).
    repeat split; try assumption.
    apply prefix_zeros_leading in Hp. lia. }
  split; [exact Hmine|].
  intros fuel now bc bc' from to amount H.
  apply AddTransaction_done_inv in H.
  destruct H as (lastBlock & newBlock & _ & M & ->).
  exists newBlock. split; [reflexivity|]. apply (Hmine _ _ _ _ M).
Qed.

End Mining.

(** ** Ledgers built by the package *)

Section Ledgers.

Context {RT : Runtime}.

Lemma mine_loop_target_met (fuel : nat) (d : Z) (b : Block) (n : nat) :
  0 <= d ->
  alloc_failure d = None ->
  HasPrefix (hash b) (zeros d) = true ->
  mine_loop (S fuel) d b n = Done (b, n).
Proof.
  intros Hd Ha H. rewrite mine_loop_step by assumption. rewrite H. reflexivity.
Qed.

Lemma mine_loop_zero (fuel : nat) (b : Block) (n : nat) :
  mine_loop (S fuel) 0 b n = Done (b, n).
Proof.
  apply mine_loop_target_met; [lia|apply alloc_small; lia|].
  destruct (hash b); reflexivity.
Qed.

Lemma HasPrefix_empty (s : string) : HasPrefix s (zeros 0) = true.
Proof. destruct s; reflexivity. Qed.

Lemma mine_zero_inv (fuel : nat) (b b' : Block) :
  mine fuel 0 b = Done b' -> b' = b.
Proof.
  destruct fuel; [discriminate|]. unfold mine.
  rewrite mine_loop_zero. cbn [bind fst]. congruence.
Qed.


Lemma AddTransaction_refused (fuel : nat) (now : Time) (b : Blockchain)
      (from to : string) (amount : float64) (msg : string) :
  chain b <> [] ->
  0 <= difficulty b ->
  alloc_failure (difficulty b) = Some msg ->
  AddTransaction (S fuel) now b from to amount = Panic msg.
Proof.
  intros Hne Hd Ha. unfold AddTransaction.
  destruct (index_last (chain b) Hne) as (lastBlock & -> & _). cbn [bind].
  unfold mine. rewrite (mine_loop_refused _ _ _ _ msg Hd Ha). reflexivity.
Qed.

Lemma AddTransaction_no_panic (fuel : nat) (now : Time) (b : Blockchain)
      (from to : string) (amount : float64) (msg : string) :
  chain b <> [] -> 0 <= difficulty b -> alloc_failure (difficulty b) = None ->
  AddTransaction fuel now b from to amount <> Panic msg.
Proof.
  intros Hne Hd Ha H. unfold AddTransaction in H.
  destruct (index_last (chain b) Hne) as (lastBlock & Hi & _).
  rewrite Hi in H. cbn [bind] in H. unfold mine in H.
  destruct (mine_loop _ _ _ _) as [[b1 n1]|m|] eqn:M; cbn [bind] in H; try discriminate.
  exact (mine_loop_no_panic _ _ _ _ _ Hd Ha M).
Qed.


Lemma AddTransaction_negative (fuel : nat) (now : Time) (b : Blockchain)
      (from to : string) (amount : float64) :
  chain b <> [] ->
  difficulty b < 0 ->
  AddTransaction (S fuel) now b from to amount = Panic "strings: negative Repeat count".
Proof.
  intros Hne Hd. unfold AddTransaction.
  destruct (index_last (chain b) Hne) as (lastBlock & -> & _). cbn [bind].
  unfold mine. rewrite mine_loop_negative by assumption. reflexivity.
Qed.

Lemma AddTransaction_done_nonneg (fuel : nat) (now : Time) (b b' : Blockchain)
      (from to : string) (amount : float64) :
  AddTransaction fuel now b from to amount = Done b' -> 0 <= difficulty b.
Proof.
  intro H. apply AddTransaction_done_inv in H.
  destruct H as (lastBlock & newBlock & _ & M & _).
  apply mine_done_inv in M. destruct M as (n' & M).
  exact (mine_loop_done_nonneg _ _ _ _ _ _ M).
Qed.

Lemma reachable_negative (d : Z) (b : Blockchain) :
  d < 0 -> reachable d b -> exists now, b = CreateBlockchain now d.
Proof.
  intros Hd R. induction R as [now|b b' fuel now from to amount R IH H].
  - exists now. reflexivity.
  - exfalso. apply AddTransaction_done_nonneg in H.
    rewrite (reachable_difficulty _ _ R) in H. lia.
Qed.

(** C9. On a ledger created with a negative difficulty, every call of
    [AddTransaction] ends in a run-time panic and appends nothing:
    [mine] evaluates [strings.Repeat("0", d)] with a negative count, which
    panics in the loop condition, before any pass through the loop body and
    so before any hash is computed. *)
Theorem negative_difficulty_panics (d : Z) (b : Blockchain) (fuel : nat)
        (now : Time) (from to : string) (amount : float64) :
  d < 0 ->
  reachable d b ->
  AddTransaction (S fuel) now b from to amount = Panic "strings: negative Repeat count"
  /\ (forall fuel' b', AddTransaction fuel' now b from to amount <> Done b')
  /\ strings_Repeat "0" d = Panic "strings: negative Repeat count"
  /\ (forall blk n, mine_loop (S fuel) d blk n = Panic "strings: negative Repeat count")
  /\ (exists now0, b = CreateBlockchain now0 d).
Proof.
  intros Hd R.
  assert (chain b <> []) as Hne by exact (reachable_nonempty _ _ R).
  assert (difficulty b < 0) as Hdb by (rewrite (reachable_difficulty _ _ R); exact Hd).
  repeat split.
  - apply AddTransaction_negative; assumption.
  - intros fuel' b' H. apply AddTransaction_done_nonneg in H. lia.
  - unfold strings_Repeat. destruct (Z.ltb_spec d 0); [reflexivity|lia].
  - intros blk n. apply mine_loop_negative, Hd.
  - apply reachable_negative; assumption.
Qed.

(** At difficulty 0 every block after the first was stored as built: empty
    hash, proof 0. *)
Lemma reachable_zero_unmined (b : Blockchain) :
  reachable 0 b ->
  exists g rest, chain b = g :: rest
    /\ Forall (fun blk => hash blk = EmptyString /\ pow blk = 0) rest.
Proof.
  induction 1 as [now|b b' fuel now from to amount R IH H].
  - eexists _, []. split; [reflexivity|constructor].
  - destruct IH as (g & rest & E & F).
    apply AddTransaction_done_inv in H.
    destruct H as (lastBlock & newBlock & _ & M & ->).
    rewrite (reachable_difficulty _ _ R) in M. apply mine_zero_inv in M. subst newBlock.
    exists g, (rest ++ [fresh_block (hash lastBlock) now from to amount]).
    cbn [set_chain chain]. rewrite E. split; [reflexivity|].
    apply Forall_app. split; [exact F|]. constructor; [split; reflexivity|constructor].
Qed.

(** C10. On a ledger created with difficulty 0, every call of
    [AddTransaction] returns a ledger whose block sequence is the old one
    with one block appended, one block longer; the appended block is the
    block as it was built, with the empty string as stored hash and proof 0:
    the loop condition of [mine] holds at once and no pass through the body,
    hence no hash computation, takes place.  Consequently [IsValid] returns
    false on the ledger the call returns, and on every such ledger that holds
    at least one appended block. *)
Theorem difficulty_zero_appends_unmined (b : Blockchain) (fuel : nat)
        (now : Time) (from to : string) (amount : float64) :
  reachable 0 b ->
  (exists lastBlock b',
      nth_error (chain b) (List.length (chain b) - 1) = Some lastBlock
      /\ AddTransaction (S fuel) now b from to amount = Done b'
      /\ chain b' = chain b ++ [fresh_block (hash lastBlock) now from to amount]
      /\ List.length (chain b') = S (List.length (chain b))
      /\ (exists newBlock,
             nth_error (chain b') (List.length (chain b)) = Some newBlock
             /\ hash newBlock = EmptyString
             /\ pow newBlock = 0
             /\ previousHash newBlock = hash lastBlock
             /\ mine_loop (S fuel) 0 newBlock 0 = Done (newBlock, 0%nat))
      /\ genesisBlock b' = genesisBlock b
      /\ difficulty b' = 0
      /\ IsValid b' = Done false)
  /\ ((2 <= List.length (chain b))%nat -> IsValid b = Done false)
  /\ (chain b = [genesisBlock b] \/ IsValid b = Done false).
Proof.
  intro R.
  assert (chain b <> []) as Hne by exact (reachable_nonempty _ _ R).
  assert (forall b0, reachable 0 b0 -> (2 <= List.length (chain b0))%nat ->
                     IsValid b0 = Done false) as Hinvalid.
  { intros b0 R0 Hlen.
    apply IsValid_false_iff; [exact (reachable_nonempty _ _ R0)|].
    destruct (reachable_zero_unmined b0 R0) as (g & rest & E & F).
    rewrite E in *. destruct rest as [|blk rest]; [cbn in Hlen; lia|].
    exists 0%nat, g, blk. repeat split.
    left. apply Forall_inv in F. destruct F as [-> _]. apply calculateHash_not_empty. }
  split; [|split].
  - destruct (index_last (chain b) Hne) as (lastBlock & Hi & Hn).
    assert (AddTransaction (S fuel) now b from to amount
            = Done (set_chain b (chain b
                      ++ [fresh_block (hash lastBlock) now from to amount]))) as HA.
    { unfold AddTransaction. rewrite Hi. cbn [bind].
      fold (fresh_block (hash lastBlock) now from to amount).
      rewrite (reachable_difficulty _ _ R). unfold mine. rewrite mine_loop_zero.
      reflexivity. }
    exists lastBlock, (set_chain b (chain b
                         ++ [fresh_block (hash lastBlock) now from to amount])).
    cbn [set_chain chain genesisBlock difficulty].
    assert (List.length (chain b ++ [fresh_block (hash lastBlock) now from to amount])
            = S (List.length (chain b))) as HL
        by (rewrite length_app; cbn [List.length]; lia).
    split; [exact Hn|]. split; [exact HA|]. split; [reflexivity|]. split; [exact HL|].
    split.
    { exists (fresh_block (hash lastBlock) now from to amount).
      split.
      - rewrite nth_error_app2 by lia. rewrite Nat.sub_diag. reflexivity.
      - split; [reflexivity|]. split; [reflexivity|]. split; [reflexivity|].
        apply mine_loop_zero. }
    split; [reflexivity|]. split; [exact (reachable_difficulty _ _ R)|].
    apply Hinvalid.
    + exact (reach_add 0 b _ _ _ _ _ _ R HA).
    + cbn [set_chain chain]. rewrite HL.
      destruct (chain b); [congruence|cbn [List.length]; lia].
  - exact (Hinvalid b R).
  - destruct (reachable_zero_unmined b R) as (g & rest & E & F).
    destruct rest as [|blk rest].
    + left. rewrite E. f_equal.
      assert (forall b0, reachable 0 b0 -> nth_error (chain b0) 0 = Some (genesisBlock b0))
        as G.
      { clear. induction 1 as [now|b b' fuel now from to amount R IH H]; [reflexivity|].
        apply AddTransaction_done_inv in H. destruct H as (? & ? & _ & _ & ->).
        cbn [set_chain chain genesisBlock].
        rewrite nth_error_app1; [exact IH|]. apply nth_error_Some. congruence. }
      specialize (G b R). rewrite E in G. cbn in G. congruence.
    + right. apply Hinvalid; [exact R|]. rewrite E. cbn [List.length]. lia.
Qed.

Lemma every_pair_passes_snoc (c : list Block) (lastBlock newBlock : Block) :
  every_pair_passes c ->
  nth_error c (List.length c - 1) = Some lastBlock ->
  pair_passes lastBlock newBlock ->
  every_pair_passes (c ++ [newBlock]).
Proof.
  intros Hc Hl Hp i previous current Ep Ec.
  assert (S i < List.length (c ++ [newBlock]))%nat as Hi
      by (apply nth_error_Some; congruence).
  rewrite length_app in Hi. cbn [List.length] in Hi.
  destruct (Nat.eq_dec (S i) (List.length c)) as [Elast|Hne].
  - rewrite nth_error_app1 in Ep by lia.
    rewrite nth_error_app2 in Ec by lia.
    replace (S i - List.length c)%nat with 0%nat in Ec by lia.
    replace (List.length c - 1)%nat with i in Hl by lia.
    cbn in Ec. congruence.
  - rewrite nth_error_app1 in Ep by lia.
    rewrite nth_error_app1 in Ec by lia.
    exact (Hc i previous current Ep Ec).
Qed.

(** At a difficulty of 1 or more the loop body of [mine] runs at least
    once, and the ledgers the package builds pass every check of
    [IsValid]. *)
Lemma reachable_positive_valid (d : Z) (b : Blockchain) :
  0 < d ->
  reachable d b ->
  every_pair_passes (chain b) /\ IsValid b = Done true.
Proof.
  intros Hd R.
  assert (every_pair_passes (chain b)) as H.
  { induction R as [now|b b' fuel now from to amount R IH H].
    - intros i previous current Ep Ec. cbn in Ec. destruct i; discriminate Ec.
    - pose proof (reachable_difficulty _ _ R) as Ed.
      apply AddTransaction_done_inv in H.
      destruct H as (lastBlock & newBlock & Hl & M & ->).
      cbn [set_chain chain]. apply every_pair_passes_snoc with lastBlock; try assumption.
      apply mine_done_inv in M. destruct M as (n' & M). rewrite Ed in M.
      apply mine_loop_done in M. destruct M as (Hp & k & _ & _ & -> & _).
      destruct k as [|k].
      + cbn [Nat.iter nat_rect] in Hp.
        rewrite fresh_no_prefix in Hp by (try assumption; reflexivity). discriminate.
      + split; [reflexivity|]. rewrite iter_mine_body_previousHash. reflexivity. }
  split; [exact H|]. apply IsValid_true_iff; [exact (reachable_nonempty _ _ R)|exact H].
Qed.

End Ledgers.

(** ** Runs of the package on the runtime [Demo] *)

Example add_at_difficulty_1 :
  AddTransaction 7 Demo.t1 (CreateBlockchain Demo.t0 1) "Alice" "Bob" (Demo.amount 5)
  = Done Demo.ledger1.
Proof. vm_compute. reflexivity. Qed.

Example add_at_difficulty_1_short_of_steps :
  AddTransaction 6 Demo.t1 (CreateBlockchain Demo.t0 1) "Alice" "Bob" (Demo.amount 5)
  = Running.
Proof. vm_compute. reflexivity. Qed.

Example ledger1_valid : IsValid Demo.ledger1 = Done true.
Proof. vm_compute. reflexivity. Qed.

Example empty_ledger_panics :
  IsValid (mkBlockchain (mkBlock None EmptyString EmptyString Demo.t0 0) [] 2)
  = Panic "slice bounds out of range".
Proof. reflexivity. Qed.

Lemma ledger0_reachable : reachable 0 Demo.ledger0.
Proof.
  apply reach_add with (b := CreateBlockchain Demo.t0 0) (fuel := 1%nat) (now := Demo.t1)
                       (from := "Alice") (to := "Bob") (amount := Demo.amount 5).
  - apply reach_create.
  - reflexivity.
Defined.

Lemma IsValid_iff_every_pair_witness :
  chain Demo.ledger1 <> []
  /\ (IsValid Demo.ledger1 = Done true <-> every_pair_passes (chain Demo.ledger1)).
Proof.
  assert (chain Demo.ledger1 <> []) as H by discriminate.
  split; [exact H|]. exact (proj1 (IsValid_iff_every_pair Demo.ledger1 H)).
Defined.

Lemma mined_hash_has_leading_zeros_witness :
  mine 7 1 Demo.newBlock
  = Done (mkBlock (data Demo.newBlock)
                  "075458850b8237f269012a75b757300eae9654379f8c94af1999da671cda717c"
                  "0" Demo.t1 6)
  /\ 1 <= Z.of_nat (leading_zeros
                      "075458850b8237f269012a75b757300eae9654379f8c94af1999da671cda717c").
Proof.
  assert (mine 7 1 Demo.newBlock
          = Done (mkBlock (data Demo.newBlock)
                    "075458850b8237f269012a75b757300eae9654379f8c94af1999da671cda717c"
                    "0" Demo.t1 6)) as H by (vm_compute; reflexivity).
  split; [exact H|].
  exact (proj2 (proj2 (proj1 mined_hash_has_leading_zeros 7%nat 1 _ _ H))).
Defined.


Lemma negative_difficulty_panics_witness :
  -1 < 0
  /\ reachable (-1) (CreateBlockchain Demo.t0 (-1))
  /\ AddTransaction 1 Demo.t1 (CreateBlockchain Demo.t0 (-1)) "Alice" "Bob" (Demo.amount 5)
     = Panic "strings: negative Repeat count".
Proof.
  assert (-1 < 0) as H by lia.
  assert (reachable (-1) (CreateBlockchain Demo.t0 (-1))) as R by apply reach_create.
  split; [exact H|]. split; [exact R|].
  exact (proj1 (negative_difficulty_panics (-1) _ 0%nat Demo.t1 "Alice" "Bob"
                  (Demo.amount 5) H R)).
Defined.

Lemma difficulty_zero_appends_unmined_witness :
  (reachable 0 (CreateBlockchain Demo.t0 0)
   /\ exists lastBlock b',
        nth_error (chain (CreateBlockchain Demo.t0 0))
                  (List.length (chain (CreateBlockchain Demo.t0 0)) - 1)
        = Some lastBlock
        /\ AddTransaction 1 Demo.t1 (CreateBlockchain Demo.t0 0) "Alice" "Bob"
                          (Demo.amount 5) = Done b'
        /\ chain b' = chain (CreateBlockchain Demo.t0 0)
                      ++ [fresh_block (hash lastBlock) Demo.t1 "Alice" "Bob"
                                      (Demo.amount 5)]
        /\ List.length (chain b') = S (List.length (chain (CreateBlockchain Demo.t0 0)))
        /\ (exists newBlock,
               nth_error (chain b') (List.length (chain (CreateBlockchain Demo.t0 0)))
               = Some newBlock
               /\ hash newBlock = EmptyString
               /\ pow newBlock = 0
               /\ previousHash newBlock = hash lastBlock
               /\ mine_loop 1 0 newBlock 0 = Done (newBlock, 0%nat))
        /\ genesisBlock b' = genesisBlock (CreateBlockchain Demo.t0 0)
        /\ difficulty b' = 0
        /\ IsValid b' = Done false)
  /\ (reachable 0 Demo.ledger0
      /\ (2 <= List.length (chain Demo.ledger0))%nat
      /\ IsValid Demo.ledger0 = Done false).
Proof.
  assert (reachable 0 (CreateBlockchain Demo.t0 0)) as R0 by apply reach_create.
  assert (2 <= List.length (chain Demo.ledger0))%nat as L by (cbn; lia).
  split.
  - split; [exact R0|].
    exact (proj1 (difficulty_zero_appends_unmined (CreateBlockchain Demo.t0 0) 0%nat
                    Demo.t1 "Alice" "Bob" (Demo.amount 5) R0)).
  - split; [exact ledger0_reachable|]. split; [exact L|].
    exact (proj1 (proj2 (difficulty_zero_appends_unmined Demo.ledger0 0%nat Demo.t2
                           "John" "Bob" (Demo.amount 2) ledger0_reachable)) L).
Defined.


(** C2 on [CreateBlockchain(0)] followed by
    [AddTransaction("Alice", "Bob", 5)]: the call returns the ledger
    [Demo.ledger0], whose second block is linked to the genesis block but
    stores the empty string as its hash, while recomputing the hash over its
    fields gives a 64-character digest; the check [IsValid] makes on that
    pair fails. *)
Theorem difficulty_zero_breaks_hash_invariant :
  AddTransaction 1 Demo.t1 (CreateBlockchain Demo.t0 0) "Alice" "Bob" (Demo.amount 5)
  = Done Demo.ledger0
  /\ reachable 0 Demo.ledger0
  /\ nth_error (chain Demo.ledger0) 1 = Some Demo.newBlock
  /\ previousHash Demo.newBlock = hash (genesisBlock Demo.ledger0)
  /\ hash Demo.newBlock = EmptyString
  /\ calculateHash Demo.newBlock
     = "41e5ee6dcd1da46624b8a199bfa04fd6826ffc89c2cf1fd31cb414a9df063809"
  /\ hash Demo.newBlock <> calculateHash Demo.newBlock
  /\ ~ every_pair_passes (chain Demo.ledger0)
  /\ IsValid Demo.ledger0 = Done false.
Proof.
  assert (calculateHash Demo.newBlock
          = "41e5ee6dcd1da46624b8a199bfa04fd6826ffc89c2cf1fd31cb414a9df063809") as E
      by (vm_compute; reflexivity).
  repeat split; try exact E.
  - exact ledger0_reachable.
  - rewrite E. discriminate.
  - intro H. destruct (H 0%nat _ _ eq_refl eq_refl) as [Hh _].
    rewrite E in Hh. discriminate Hh.
Qed.

(** C3 on the block [AddTransaction("Alice", "Bob", 5)] builds after
    [CreateBlockchain(0)]: [mine(0)] leaves the loop at the first test of its
    condition, after no pass through the body, so no hash is computed; the
    block is appended with proof 0 and the empty string as hash, not with the
    hash computed at proof 1. *)
Theorem mine_difficulty_zero_runs_no_pass :
  (forall fuel, mine_loop (S fuel) 0 Demo.newBlock 0 = Done (Demo.newBlock, 0%nat))
  /\ AddTransaction 1 Demo.t1 (CreateBlockchain Demo.t0 0) "Alice" "Bob" (Demo.amount 5)
     = Done (set_chain (CreateBlockchain Demo.t0 0)
               [genesisBlock (CreateBlockchain Demo.t0 0); Demo.newBlock])
  /\ pow Demo.newBlock = 0
  /\ hash Demo.newBlock = EmptyString
  /\ hash (mine_body Demo.newBlock)
     = "e414abc40c20a95237c3b6ece043a6826b68229441a80651d6b51da355f494dc"
  /\ pow (mine_body Demo.newBlock) = 1
  /\ Demo.newBlock <> mine_body Demo.newBlock.
Proof.
  assert (hash (mine_body Demo.newBlock)
          = "e414abc40c20a95237c3b6ece043a6826b68229441a80651d6b51da355f494dc") as E
      by (vm_compute; reflexivity).
  repeat split; try exact E.
  intro H. apply (f_equal pow) in H. discriminate H.
Qed.

(** ** Further properties of hashing and mining *)

Section HashingAndMining.

Context {RT : Runtime}.

Lemma word_bytes_range (x : Z) :
  Forall (fun b => 0 <= b < 256) (SHA256.word_bytes x).
Proof.
  unfold SHA256.word_bytes.
  repeat constructor;
    change 255 with (Z.ones 8); rewrite Z.land_ones by lia;
    apply Z.mod_pos_bound; lia.
Qed.

Lemma Sum256_range (msg : list Z) :
  Forall (fun b => 0 <= b < 256) (SHA256.Sum256 msg).
Proof.
  unfold SHA256.Sum256. cbv zeta.
  repeat (apply Forall_app; split); apply word_bytes_range.
Qed.

Lemma hex_digit_lower (n : Z) : 0 <= n < 16 -> is_lower_hex (hex_digit n) = true.
Proof.
  intro H. unfold is_lower_hex, hex_digit. apply existsb_exists.
  eexists. split; [|apply Ascii.eqb_refl].
  apply nth_In. cbn [list_ascii_of_string List.length]. lia.
Qed.

Lemma Sprintf_x_lower (bs : list Z) :
  Forall (fun b => 0 <= b < 256) bs ->
  forallb is_lower_hex (list_ascii_of_string (Sprintf_x bs)) = true.
Proof.
  induction 1 as [|b rest Hb _ IH]; [reflexivity|].
  cbn [Sprintf_x list_ascii_of_string forallb]. rewrite IH.
  rewrite !hex_digit_lower; [reflexivity| |].
  - change 15 with (Z.ones 4). rewrite Z.land_ones by lia. apply Z.mod_pos_bound. lia.
  - rewrite Z.shiftr_div_pow2 by lia. change (2 ^ 4) with 16.
    split; [apply Z.div_pos; lia|apply Z.div_lt_upper_bound; lia].
Qed.

Lemma leading_zeros_le_length (s : string) :
  (leading_zeros s <= String.length s)%nat.
Proof.
  induction s as [|c s IH]; [reflexivity|].
  destruct (Ascii.ascii_dec c "0") as [->|Hne].
  - change (leading_zeros (String "0" s)) with (S (leading_zeros s)). cbn [String.length]. lia.
  - rewrite leading_zeros_other by assumption. lia.
Qed.

(** X1. The text [calculateHash] returns is always 64 lowercase hexadecimal
    digits, whatever the block holds; so it never begins with more than 64
    zeros. *)
Theorem calculateHash_hex_format (b : Block) :
  String.length (calculateHash b) = 64%nat
  /\ forallb is_lower_hex (list_ascii_of_string (calculateHash b)) = true
  /\ (leading_zeros (calculateHash b) <= 64)%nat.
Proof.
  split; [apply calculateHash_length|]. split.
  - unfold calculateHash. apply Sprintf_x_lower, Sum256_range.
  - pose proof (leading_zeros_le_length (calculateHash b)) as L.
    rewrite calculateHash_length in L. exact L.
Qed.

Lemma wrap_int_succ (x : Z) : wrap_int (wrap_int x + 1) = wrap_int (x + 1).
Proof.
  unfold wrap_int.
  replace ((x + 2 ^ 63) mod 2 ^ 64 - 2 ^ 63 + 1 + 2 ^ 63)
    with ((x + 2 ^ 63) mod 2 ^ 64 + 1) by lia.
  rewrite Zplus_mod_idemp_l. f_equal. f_equal. lia.
Qed.

Lemma mine_body_candidate (b : Block) (k : nat) :
  mine_body (candidate b (S k)) = candidate b (S (S k)).
Proof.
  unfold mine_body, candidate. cbn [set_pow set_hash pow data hash previousHash timestamp].
  rewrite wrap_int_succ.
  replace (pow b + Z.of_nat (S k) + 1) with (pow b + Z.of_nat (S (S k))) by lia.
  reflexivity.
Qed.

Lemma iter_mine_body_candidate (b : Block) (k : nat) :
  Nat.iter (S k) mine_body b = candidate b (S k).
Proof.
  induction k as [|k IH]; [reflexivity|].
  change (Nat.iter (S (S k)) mine_body b) with (mine_body (Nat.iter (S k) mine_body b)).
  rewrite IH. apply mine_body_candidate.
Qed.

(** X2. When [mine(d)] returns, the payload, the previous hash and the
    timestamp of the block are as before.  Either the hash already began with
    [d] zeros and the block is unchanged, or the proof has been incremented
    [k >= 1] times (with wrap-around), the stored hash is [calculateHash()]
    at that proof and begins with [d] zeros, and neither the hash the block
    came with nor the hash at any smaller number of increments does: the
    first proof that meets the target is the one returned. *)
Theorem mine_returns_first_proof (fuel : nat) (d : Z) (b b' : Block) :
  mine fuel d b = Done b' ->
  data b' = data b /\ previousHash b' = previousHash b /\ timestamp b' = timestamp b
  /\ HasPrefix (hash b') (zeros d) = true
  /\ (b' = b
      \/ exists k, (0 < k < fuel)%nat
           /\ b' = candidate b k
           /\ pow b' = wrap_int (pow b + Z.of_nat k)
           /\ hash b' = calculateHash b'
           /\ HasPrefix (hash b) (zeros d) = false
           /\ forall j, (0 < j < k)%nat ->
                HasPrefix (hash (candidate b j)) (zeros d) = false).
Proof.
  intro H. apply mine_done_inv in H. destruct H as (n' & H).
  apply mine_loop_done in H. destruct H as (Hp & k & _ & Hk & -> & Hj).
  destruct k as [|k].
  - repeat split; try assumption. left. reflexivity.
  - rewrite iter_mine_body_candidate in *.
    repeat split; try assumption. right. exists (S k).
    repeat split; try lia.
    + exact (Hj 0%nat ltac:(lia)).
    + intros [|j] Hlt; [lia|]. rewrite <- iter_mine_body_candidate. apply Hj. lia.
Qed.

Lemma zeros_prefix_weaken (d d' : Z) (s : string) :
  0 <= d' <= d ->
  HasPrefix s (zeros d) = true -> HasPrefix s (zeros d') = true.
Proof.
  intros Hd H. unfold HasPrefix, zeros in *.
  apply prefix_zeros_leading in H. apply prefix_zeros_leading. lia.
Qed.

(** X3. A block [mine(d)] has returned meets every difficulty from 0 to
    [d]: calling [mine] on it again, at [d] or at a lower non-negative
    difficulty, returns at the first test of the loop condition and leaves
    proof and hash as they are. *)
Theorem mine_again_returns_at_once (fuel fuel' : nat) (d d' : Z) (b b' : Block) :
  mine fuel d b = Done b' ->
  0 <= d' <= d ->
  mine_loop (S fuel') d' b' 0 = Done (b', 0%nat)
  /\ mine (S fuel') d' b' = Done b'.
Proof.
  intros H Hd. apply mine_done_inv in H. destruct H as (n' & H).
  pose proof H as H0.
  apply mine_loop_done in H. destruct H as (Hp & _).
  assert (mine_loop (S fuel') d' b' 0 = Done (b', 0%nat)) as E.
  { apply mine_loop_target_met; [lia| |].
    - apply (alloc_monotone d' d); [lia|]. exact (mine_loop_done_granted _ _ _ _ _ _ H0).
    - apply zeros_prefix_weaken with d; assumption. }
  split; [exact E|]. unfold mine. rewrite E. reflexivity.
Qed.

Lemma index_empty {A : Type} (i : Z) : index (@nil A) i = Panic "index out of range".
Proof.
  unfold index. cbn [List.length].
  destruct (i <? 0) eqn:E1; [reflexivity|].
  destruct (Z.of_nat 0 <=? i) eqn:E2; [reflexivity|].
  apply Z.ltb_ge in E1. apply Z.leb_gt in E2. cbn in E2. lia.
Qed.

(** X4. The panics of [AddTransaction] are exactly three: the index panic
    on a ledger whose block sequence is empty (the zero value of
    [Blockchain]); the panic of [strings.Repeat] on a negative count, on a
    ledger with a block and a negative difficulty; and, on a ledger with a
    block and a difficulty above 64, the failure of [strings.Repeat] to get
    a buffer for that many zeros, when the runtime refuses it.  On a ledger
    with a block and a difficulty from 0 to 64 [AddTransaction] never
    panics. *)
Theorem AddTransaction_panics_iff (fuel : nat) (now : Time) (b : Blockchain)
        (from to : string) (amount : float64) (msg : string) :
  AddTransaction (S fuel) now b from to amount = Panic msg
  <-> (chain b = [] /\ msg = "index out of range")
      \/ (chain b <> [] /\ difficulty b < 0 /\ msg = "strings: negative Repeat count")
      \/ (chain b <> [] /\ 64 < difficulty b
          /\ alloc_failure (difficulty b) = Some msg).
Proof.
  split.
  - intro H. destruct (chain b) as [|g tail] eqn:E.
    + left. split; [reflexivity|].
      unfold AddTransaction in H. rewrite E, index_empty in H. cbn [bind] in H. congruence.
    + right. assert (chain b <> []) as Hne by congruence.
      destruct (Z.lt_ge_cases (difficulty b) 0) as [Hd|Hd].
      * left. split; [discriminate|].
        rewrite AddTransaction_negative in H by assumption. split; [assumption|congruence].
      * right. split; [discriminate|].
        destruct (alloc_failure (difficulty b)) as [m|] eqn:Ha.
        -- rewrite (AddTransaction_refused _ _ _ _ _ _ m Hne Hd Ha) in H.
           split; [|congruence].
           destruct (Z.lt_ge_cases 64 (difficulty b)) as [Hlt|Hge]; [exact Hlt|].
           rewrite alloc_small in Ha by lia. discriminate.
        -- exfalso. revert H. apply AddTransaction_no_panic; assumption.
  - intros [[E ->]|[(Hne & Hd & ->)|(Hne & Hd & Ha)]].
    + unfold AddTransaction. rewrite E, index_empty. reflexivity.
    + apply AddTransaction_negative; assumption.
    + apply AddTransaction_refused; [assumption|lia|assumption].
Qed.

(** X5. [IsValid] panics exactly on a ledger whose block sequence is empty,
    where slicing from index 1 is out of bounds; on every other ledger it
    returns a boolean. *)
Theorem IsValid_panics_iff_empty (b : Blockchain) :
  (IsValid b = Panic "slice bounds out of range" <-> chain b = [])
  /\ (chain b <> [] <-> exists v, IsValid b = Done v)
  /\ IsValid b <> Running.
Proof.
  destruct (chain b) as [|g tail] eqn:E.
  - assert (IsValid b = Panic "slice bounds out of range") as P
        by (unfold IsValid; rewrite E; reflexivity).
    rewrite P. repeat split; try congruence; try discriminate.
    intros [v Hv]. discriminate.
  - assert (chain b <> []) as Hne by congruence.
    pose proof (IsValid_forallb b Hne) as P. rewrite P.
    repeat split; try congruence; try discriminate.
    intros _. eexists. reflexivity.
Qed.

End HashingAndMining.

(** ** Further properties of the ledgers the package builds *)

Section BuiltLedgers.

Context {RT : Runtime}.

Lemma iter_mine_body_fields (k : nat) (b : Block) :
  data (Nat.iter k mine_body b) = data b
  /\ previousHash (Nat.iter k mine_body b) = previousHash b
  /\ timestamp (Nat.iter k mine_body b) = timestamp b.
Proof.
  induction k as [|k IH]; [repeat split|].
  change (Nat.iter (S k) mine_body b) with (mine_body (Nat.iter k mine_body b)).
  exact IH.
Qed.

(** What [mine] leaves of the block [AddTransaction] built. *)
Lemma mine_fresh_done (fuel : nat) (d : Z) (previous : string) (now : Time)
      (from to : string) (amount : float64) (b' : Block) :
  mine fuel d (fresh_block previous now from to amount) = Done b' ->
  data b' = payload (mkTransaction now from to amount)
  /\ previousHash b' = previous
  /\ timestamp b' = now
  /\ 0 <= d <= Z.of_nat (leading_zeros (hash b'))
  /\ (String.length (hash b') <= 64)%nat
  /\ (d = 0 -> b' = fresh_block previous now from to amount)
  /\ (0 < d -> hash b' = calculateHash b').
Proof.
  intro H. apply mine_done_inv in H. destruct H as (n' & H).
  pose proof (mine_loop_done_nonneg _ _ _ _ _ _ H) as Hd.
  apply mine_loop_done in H. destruct H as (Hp & k & _ & _ & -> & Hj).
  destruct (iter_mine_body_fields k (fresh_block previous now from to amount))
    as (E1 & E2 & E3).
  split; [exact E1|]. split; [exact E2|]. split; [exact E3|].
  split; [split; [exact Hd|apply prefix_zeros_leading in Hp; lia]|].
  destruct k as [|k].
  - split; [cbn [Nat.iter nat_rect fresh_block hash String.length]; lia|].
    split; [intros _; reflexivity|].
    intro Hpos. cbn [Nat.iter nat_rect] in Hp.
    rewrite fresh_no_prefix in Hp by (try assumption; reflexivity). discriminate.
  - split; [|split].
    + change (Nat.iter (S k) mine_body ?x) with (mine_body (Nat.iter k mine_body x)).
      cbn [mine_body set_hash hash]. rewrite calculateHash_length. lia.
    + intros ->. exfalso.
      specialize (Hj 0%nat ltac:(lia)). cbn [Nat.iter nat_rect] in Hj.
      rewrite HasPrefix_empty in Hj. discriminate.
    + intros _. reflexivity.
Qed.

Lemma linked_snoc (c : list Block) (lastBlock newBlock : Block) :
  linked c ->
  nth_error c (List.length c - 1) = Some lastBlock ->
  previousHash newBlock = hash lastBlock ->
  linked (c ++ [newBlock]).
Proof.
  intros Hc Hl Hp i previous current Ep Ec.
  assert (S i < List.length (c ++ [newBlock]))%nat as Hi
      by (apply nth_error_Some; congruence).
  rewrite length_app in Hi. cbn [List.length] in Hi.
  destruct (Nat.eq_dec (S i) (List.length c)) as [Elast|Hne].
  - rewrite nth_error_app1 in Ep by lia.
    rewrite nth_error_app2 in Ec by lia.
    replace (S i - List.length c)%nat with 0%nat in Ec by lia.
    replace (List.length c - 1)%nat with i in Hl by lia.
    cbn in Ec. congruence.
  - rewrite nth_error_app1 in Ep by lia.
    rewrite nth_error_app1 in Ec by lia.
    exact (Hc i previous current Ep Ec).
Qed.

(** X6. Chain linkage holds at every difficulty: in every ledger obtained
    from [CreateBlockchain] by calls of [AddTransaction] that returned, each
    block after the first stores as [previousHash] the hash stored in the
    block before it. *)
Theorem built_chain_linked (d : Z) (b : Blockchain) :
  reachable d b -> linked (chain b).
Proof.
  induction 1 as [now|b b' fuel now from to amount R IH H].
  - intros i previous current Ep Ec. cbn in Ec. destruct i; discriminate Ec.
  - apply AddTransaction_done_inv in H.
    destruct H as (lastBlock & newBlock & Hl & M & ->).
    cbn [set_chain chain]. apply linked_snoc with lastBlock; try assumption.
    apply mine_fresh_done in M. tauto.
Qed.

(** X7. The genesis block and the difficulty never change: in every ledger
    built by the package the [genesisBlock] field is the block
    [CreateBlockchain] made (hash "0", no payload, empty previous hash,
    proof 0), it is the block at index 0 of the sequence, and the difficulty
    is the one the ledger was created with. *)
Theorem genesis_and_difficulty_fixed (d : Z) (b : Blockchain) :
  reachable d b ->
  (exists now, genesisBlock b = mkBlock None "0" EmptyString now 0
               /\ b = set_chain (CreateBlockchain now d) (chain b))
  /\ nth_error (chain b) 0 = Some (genesisBlock b)
  /\ difficulty b = d.
Proof.
  induction 1 as [now|b b' fuel now from to amount R IH H].
  - split; [exists now; split; reflexivity|]. split; reflexivity.
  - apply AddTransaction_done_inv in H.
    destruct H as (lastBlock & newBlock & Hl & M & ->).
    destruct IH as ((now0 & Eg & Eb) & E0 & Ed).
    cbn [set_chain chain genesisBlock difficulty].
    split; [|split].
    + exists now0. split; [exact Eg|]. rewrite Eb at 1. reflexivity.
    + rewrite nth_error_app1; [exact E0|].
      apply nth_error_Some. congruence.
    + exact Ed.
Qed.

(** The blocks after the first, in a ledger built at difficulty [d]. *)
Lemma built_blocks (d : Z) (b : Blockchain) :
  reachable d b ->
  exists g rest, chain b = g :: rest
  /\ Forall (fun blk =>
       0 <= d <= Z.of_nat (leading_zeros (hash blk))
       /\ (String.length (hash blk) <= 64)%nat
       /\ exists tx, data blk = payload tx /\ timestamp blk = tx_now tx)
     rest.
Proof.
  induction 1 as [now|b b' fuel now from to amount R IH H].
  - eexists _, []. split; [reflexivity|]. constructor.
  - pose proof (reachable_difficulty _ _ R) as Ed.
    apply AddTransaction_done_inv in H.
    destruct H as (lastBlock & newBlock & Hl & M & ->).
    destruct IH as (g & rest & Ec & F). cbn [set_chain chain].
    exists g, (rest ++ [newBlock]). rewrite Ec.
    split; [reflexivity|]. apply Forall_app. split; [exact F|].
    constructor; [|constructor].
    rewrite Ed in M. apply mine_fresh_done in M.
    destruct M as (E1 & _ & E3 & Hz & Hlen & _).
    split; [exact Hz|]. split; [exact Hlen|].
    exists (mkTransaction now from to amount). split; assumption.
Qed.


Lemma AddTransactions_reachable (d : Z) (fuel : nat) (txs : list Transaction)
      (b b' : Blockchain) :
  reachable d b -> AddTransactions fuel b txs = Done b' -> reachable d b'.
Proof.
  revert b. induction txs as [|tx rest IH]; intros b R H.
  - cbn in H. congruence.
  - cbn [AddTransactions] in H.
    destruct (AddTransaction _ _ _ _ _ _) as [b1| |] eqn:E; cbn [bind] in H;
      try discriminate.
    apply (IH b1); [|exact H]. exact (reach_add d b b1 _ _ _ _ _ R E).
Qed.

(** X9. Calls of [AddTransaction] made one after the other append one block
    per call, in call order, behind the blocks already there: the blocks
    added carry the payloads and timestamps of the calls, and the genesis
    block field and the difficulty are left alone. *)
Theorem AddTransactions_appends_in_order (fuel : nat) (txs : list Transaction)
        (b b' : Blockchain) :
  AddTransactions fuel b txs = Done b' ->
  exists added,
    chain b' = chain b ++ added
    /\ map data added = map payload txs
    /\ map timestamp added = map tx_now txs
    /\ List.length (chain b') = (List.length (chain b) + List.length txs)%nat
    /\ genesisBlock b' = genesisBlock b
    /\ difficulty b' = difficulty b.
Proof.
  revert b. induction txs as [|tx rest IH]; intros b H.
  - cbn in H. injection H as <-. exists []. rewrite app_nil_r.
    repeat split. cbn. lia.
  - cbn [AddTransactions] in H.
    destruct (AddTransaction _ _ _ _ _ _) as [b1| |] eqn:E; cbn [bind] in H;
      try discriminate.
    apply AddTransaction_done_inv in E.
    destruct E as (lastBlock & newBlock & _ & M & ->).
    apply mine_fresh_done in M. destruct M as (E1 & _ & E3 & _).
    destruct (IH _ H) as (added & Ec & Ed & Et & El & Eg & Edf).
    cbn [set_chain chain genesisBlock difficulty] in *.
    exists (newBlock :: added). rewrite Ec, <- app_assoc.
    split; [reflexivity|]. cbn [map]. rewrite Ed, Et, E1, E3.
    destruct tx as [n f t a]. cbn [tx_now tx_from tx_to tx_amount].
    repeat split; try assumption.
    rewrite Ec in El. rewrite !length_app in *. cbn [List.length] in *. lia.
Qed.

Lemma AddTransactions_length (fuel : nat) (txs : list Transaction)
      (b b' : Blockchain) :
  AddTransactions fuel b txs = Done b' ->
  List.length (chain b') = (List.length (chain b) + List.length txs)%nat.
Proof.
  revert b. induction txs as [|tx rest IH]; intros b H.
  - cbn in H. injection H as <-. cbn. lia.
  - cbn [AddTransactions] in H.
    destruct (AddTransaction _ _ _ _ _ _) as [b1| |] eqn:E; cbn [bind] in H;
      try discriminate.
    apply AddTransaction_done_inv in E. destruct E as (? & ? & _ & _ & ->).
    rewrite (IH _ H). cbn [set_chain chain List.length]. rewrite length_app.
    cbn [List.length]. lia.
Qed.

Lemma reachable_zero_invalid (b : Blockchain) :
  reachable 0 b -> (2 <= List.length (chain b))%nat -> IsValid b = Done false.
Proof.
  intros R Hlen. apply IsValid_false_iff; [exact (reachable_nonempty _ _ R)|].
  destruct (reachable_zero_unmined b R) as (g & rest & E & F).
  rewrite E in *. destruct rest as [|blk rest]; [cbn in Hlen; lia|].
  exists 0%nat, g, blk. repeat split.
  left. apply Forall_inv in F. destruct F as [-> _]. apply calculateHash_not_empty.
Qed.

(** X10. What [IsValid] says of a ledger right after it was built:
    [CreateBlockchain(d)] followed by calls of [AddTransaction] that all
    returned gives a ledger of one block more than there were calls, on which
    [IsValid] returns true when no call was made or [d >= 1], and false when
    calls were made at [d = 0]. *)
Theorem built_ledger_IsValid (fuel : nat) (now : Time) (d : Z)
        (txs : list Transaction) (b : Blockchain) :
  AddTransactions fuel (CreateBlockchain now d) txs = Done b ->
  List.length (chain b) = S (List.length txs)
  /\ IsValid b = Done (match txs with [] => true | _ :: _ => 0 <? d end).
Proof.
  intro H.
  assert (reachable d b) as R
      by (apply (AddTransactions_reachable d fuel txs (CreateBlockchain now d));
          [apply reach_create|exact H]).
  pose proof (AddTransactions_length _ _ _ _ H) as L. cbn in L.
  split; [exact L|].
  destruct txs as [|tx rest]; [cbn in H; injection H as <-; reflexivity|].
  cbn [List.length] in L.
  destruct (built_blocks d b R) as (g & blocks & Ec & F).
  destruct blocks as [|blk blocks]; [rewrite Ec in L; discriminate L|].
  apply Forall_inv in F. destruct F as ((Hd & _) & _).
  destruct (Z.ltb_spec 0 d) as [Hpos|Hzero].
  - apply reachable_positive_valid with d; assumption.
  - assert (d = 0) as -> by lia. apply reachable_zero_invalid; [exact R|lia].
Qed.

(** X11. The demo program never panics and never prints "false": whatever
    the clock reads, [main] either prints "true" followed by a newline, or is
    still mining. *)
Theorem main_prints_true (fuel : nat) (t0 t1 t2 : Time) (five two : float64) :
  main fuel t0 t1 t2 five two = Done (Println true)
  \/ main fuel t0 t1 t2 five two = Running.
Proof.
  unfold main.
  pose proof (reach_create 2 t0) as R0.
  destruct (AddTransaction fuel t1 _ "Alice" "Bob" five) as [b1|msg|] eqn:E1;
    cbn [bind]; [| |right; reflexivity].
  - pose proof (reach_add 2 _ _ _ _ _ _ _ R0 E1) as R1.
    destruct (AddTransaction fuel t2 b1 "John" "Bob" two) as [b2|msg|] eqn:E2;
      cbn [bind]; [| |right; reflexivity].
    + pose proof (reach_add 2 _ _ _ _ _ _ _ R1 E2) as R2.
      destruct (reachable_positive_valid 2 b2 ltac:(lia) R2) as [_ ->].
      left. reflexivity.
    + exfalso. revert E2. apply AddTransaction_no_panic.
      * exact (reachable_nonempty _ _ R1).
      * rewrite (reachable_difficulty _ _ R1). lia.
      * rewrite (reachable_difficulty _ _ R1). apply alloc_small. lia.
  - exfalso. revert E1.
    apply AddTransaction_no_panic; [discriminate|cbn; lia|apply alloc_small; cbn; lia].
Qed.

Lemma IsValid_done (b : Blockchain) :
  chain b <> [] -> exists v, IsValid b = Done v.
Proof. intro Hne. rewrite (IsValid_forallb b Hne). eexists. reflexivity. Qed.

Lemma some_pair_fails_app (c l : list Block) :
  some_pair_fails c -> some_pair_fails (c ++ l).
Proof.
  intros (i & previous & current & Ep & Ec & Hf).
  exists i, previous, current.
  assert (S i < List.length c)%nat by (apply nth_error_Some; congruence).
  rewrite !nth_error_app1 by lia. repeat split; assumption.
Qed.

(** X12. How [AddTransaction] and [IsValid] compose, on any ledger:
    after a call that returned, [IsValid] is false if the difficulty is 0,
    and otherwise returns what it returned before the call.  Appending never
    repairs a broken chain, and at a difficulty of 1 or more never breaks a
    sound one. *)
Theorem AddTransaction_then_IsValid (fuel : nat) (now : Time) (b b' : Blockchain)
        (from to : string) (amount : float64) :
  AddTransaction fuel now b from to amount = Done b' ->
  IsValid b' = if difficulty b =? 0 then Done false else IsValid b.
Proof.
  intro H. apply AddTransaction_done_inv in H.
  destruct H as (lastBlock & newBlock & Hl & M & ->).
  assert (chain b <> []) as Hne by (intro E; rewrite E in Hl; discriminate Hl).
  assert (chain (set_chain b (chain b ++ [newBlock])) <> []) as Hne'
      by (cbn; intro E; apply app_eq_nil in E; destruct E; discriminate).
  apply mine_fresh_done in M. destruct M as (_ & Ep & _ & Hd & _ & Hz & Hpos).
  assert (nth_error (chain b ++ [newBlock]) (List.length (chain b) - 1) = Some lastBlock
          /\ nth_error (chain b ++ [newBlock]) (S (List.length (chain b) - 1))
             = Some newBlock) as [N1 N2].
  { assert (0 < List.length (chain b))%nat
        by (destruct (chain b); [congruence|cbn; lia]).
    split; [rewrite nth_error_app1 by lia; exact Hl|].
    rewrite nth_error_app2 by lia.
    replace (S (List.length (chain b) - 1) - List.length (chain b))%nat with 0%nat by lia.
    reflexivity. }
  destruct (Z.eqb_spec (difficulty b) 0) as [E0|Hnz].
  - apply IsValid_false_iff; [exact Hne'|]. cbn [set_chain chain].
    exists (List.length (chain b) - 1)%nat, lastBlock, newBlock.
    repeat split; try assumption.
    left. rewrite (Hz E0). apply calculateHash_not_empty.
  - destruct (IsValid_done b Hne) as [[|] Hv]; rewrite Hv.
    + apply IsValid_true_iff; [exact Hne'|]. cbn [set_chain chain].
      apply every_pair_passes_snoc with lastBlock; try assumption.
      * apply IsValid_true_iff; assumption.
      * split; [apply Hpos; lia|exact Ep].
    + apply IsValid_false_iff; [exact Hne'|]. cbn [set_chain chain].
      apply some_pair_fails_app. apply IsValid_false_iff; assumption.
Qed.

End BuiltLedgers.

(** ** What [IsValid] detects and what it does not *)

Section Detection.

Context {RT : Runtime}.

Lemma IsValid_true_inv (b : Blockchain) :
  IsValid b = Done true -> chain b <> [] /\ every_pair_passes (chain b).
Proof.
  intro H. assert (chain b <> []) as Hne.
  { intro E. unfold IsValid in H. rewrite E in H. discriminate H. }
  split; [exact Hne|]. apply IsValid_true_iff; assumption.
Qed.

Lemma replaced_at_nonempty (c c' : list Block) (i : nat) (x : Block) :
  replaced_at c c' i x -> c' <> [].
Proof. intros (_ & E & _) ->. destruct i; discriminate E. Qed.

(** X13. Overwriting the stored hash of any block of a ledger that passes
    [IsValid] and holds at least two blocks is detected: [IsValid] returns
    false afterwards.  For the first block the link from the second block
    breaks; for any other block the stored hash no longer equals the
    recomputed one. *)
Theorem stored_hash_edit_detected (b b' : Blockchain) (i : nat) (blk : Block)
        (h : string) :
  IsValid b = Done true ->
  (2 <= List.length (chain b))%nat ->
  nth_error (chain b) i = Some blk ->
  h <> hash blk ->
  replaced_at (chain b) (chain b') i (set_hash blk h) ->
  IsValid b' = Done false.
Proof.
  intros V L Hi Hh Hr. apply IsValid_true_inv in V. destruct V as [_ V].
  apply IsValid_false_iff; [exact (replaced_at_nonempty _ _ _ _ Hr)|].
  destruct Hr as (Hlen & Hx & Hothers).
  destruct i as [|j].
  - destruct (nth_error (chain b) 1) as [current|] eqn:E1;
      [|apply nth_error_None in E1; lia].
    exists 0%nat, (set_hash blk h), current.
    split; [exact Hx|]. split; [rewrite Hothers by lia; exact E1|].
    right. destruct (V 0%nat blk current Hi E1) as [_ Hp]. cbn [set_hash hash]. congruence.
  - destruct (nth_error (chain b) j) as [previous|] eqn:Ej.
    + exists j, previous, (set_hash blk h).
      split; [rewrite Hothers by lia; exact Ej|]. split; [exact Hx|].
      left. destruct (V j previous blk Ej Hi) as [Hc _].
      change (calculateHash (set_hash blk h)) with (calculateHash blk).
      cbn [set_hash hash]. congruence.
    + apply nth_error_None in Ej.
      assert (S j < List.length (chain b))%nat by (apply nth_error_Some; congruence).
      lia.
Qed.

(** X14. Overwriting the [previousHash] of any block after the first, in a
    ledger that passes [IsValid], is detected: the block no longer names the
    hash of the block before it and [IsValid] returns false. *)
Theorem previousHash_edit_detected (b b' : Blockchain) (j : nat) (blk : Block)
        (p : string) :
  IsValid b = Done true ->
  nth_error (chain b) (S j) = Some blk ->
  p <> previousHash blk ->
  replaced_at (chain b) (chain b') (S j) (set_previousHash blk p) ->
  IsValid b' = Done false.
Proof.
  intros V Hi Hp Hr. apply IsValid_true_inv in V. destruct V as [_ V].
  apply IsValid_false_iff; [exact (replaced_at_nonempty _ _ _ _ Hr)|].
  destruct Hr as (Hlen & Hx & Hothers).
  destruct (nth_error (chain b) j) as [previous|] eqn:Ej.
  - exists j, previous, (set_previousHash blk p).
    split; [rewrite Hothers by lia; exact Ej|]. split; [exact Hx|].
    right. destruct (V j previous blk Ej Hi) as [_ Hl].
    cbn [set_previousHash previousHash]. congruence.
  - apply nth_error_None in Ej.
    assert (S j < List.length (chain b))%nat by (apply nth_error_Some; congruence).
    lia.
Qed.

(** X15. Replacing a block after the first, in a ledger that passes
    [IsValid], by a block with the same stored hash and previous hash but
    other payload, timestamp or proof is detected exactly when the
    recomputed hash of the replacement differs from the stored hash:
    [IsValid] returns whether the two are equal. *)
Theorem content_edit_detected_iff (b b' : Blockchain) (j : nat) (blk blk' : Block) :
  IsValid b = Done true ->
  nth_error (chain b) (S j) = Some blk ->
  hash blk' = hash blk ->
  previousHash blk' = previousHash blk ->
  replaced_at (chain b) (chain b') (S j) blk' ->
  IsValid b' = Done (calculateHash blk' =? hash blk)%string.
Proof.
  intros V Hi Eh Ep Hr. apply IsValid_true_inv in V. destruct V as [_ V].
  pose proof (replaced_at_nonempty _ _ _ _ Hr) as Hne.
  destruct Hr as (Hlen & Hx & Hothers).
  destruct (String.eqb_spec (calculateHash blk') (hash blk)) as [E|Hd].
  - apply IsValid_true_iff; [exact Hne|].
    intros i previous current Hp Hc.
    destruct (Nat.eq_dec (S i) (S j)) as [Ecur|Ncur].
    + injection Ecur as ->. rewrite Hx in Hc. injection Hc as <-.
      rewrite Hothers in Hp by lia.
      destruct (V j previous blk Hp Hi) as [_ Hl].
      split; congruence.
    + rewrite Hothers in Hc by assumption.
      destruct (Nat.eq_dec i (S j)) as [->|Nprev].
      * rewrite Hx in Hp. injection Hp as <-.
        destruct (V (S j) blk current Hi Hc) as [H1 H2]. split; congruence.
      * rewrite Hothers in Hp by assumption. exact (V i previous current Hp Hc).
  - apply IsValid_false_iff; [exact Hne|].
    destruct (nth_error (chain b) j) as [previous|] eqn:Ej.
    + exists j, previous, blk'.
      split; [rewrite Hothers by lia; exact Ej|]. split; [exact Hx|].
      left. congruence.
    + apply nth_error_None in Ej.
      assert (S j < List.length (chain b))%nat by (apply nth_error_Some; congruence).
      lia.
Qed.

Lemma every_pair_passes_head (g g' : Block) (rest : list Block) :
  hash g' = hash g ->
  every_pair_passes (g :: rest) -> every_pair_passes (g' :: rest).
Proof.
  intros E H [|i] previous current Hp Hc.
  - cbn in Hp. injection Hp as <-.
    destruct (H 0%nat g current eq_refl Hc) as [H1 H2]. split; congruence.
  - exact (H (S i) previous current Hp Hc).
Qed.

(** X16. The first block is a trust anchor: [IsValid] looks at nothing of
    it but its stored hash, and at neither the [genesisBlock] field nor the
    difficulty.  Two ledgers whose sequences differ only in a first block
    with the same stored hash get the same answer. *)
Theorem first_block_content_unchecked (b b' : Blockchain) (g g' : Block)
        (rest : list Block) :
  chain b = g :: rest ->
  chain b' = g' :: rest ->
  hash g' = hash g ->
  IsValid b' = IsValid b.
Proof.
  intros Ec Ec' Eh.
  assert (chain b <> []) as Hne by congruence.
  assert (chain b' <> []) as Hne' by congruence.
  assert (IsValid b = Done true <-> IsValid b' = Done true) as [H1 H2].
  { rewrite (IsValid_true_iff b Hne), (IsValid_true_iff b' Hne'), Ec, Ec'.
    split; apply every_pair_passes_head; congruence. }
  destruct (IsValid_done b Hne) as [v Hv], (IsValid_done b' Hne') as [v' Hv'].
  rewrite Hv, Hv' in *.
  destruct v, v'; try reflexivity;
    [discriminate (H1 eq_refl)|discriminate (H2 eq_refl)].
Qed.

(** X17. Dropping blocks from the end is not detected: every non-empty
    initial part of a block sequence that passes [IsValid] passes it too. *)
Theorem truncation_undetected (b b' : Blockchain) (n : nat) :
  IsValid b = Done true ->
  (1 <= n)%nat ->
  chain b' = firstn n (chain b) ->
  IsValid b' = Done true.
Proof.
  intros V Hn Ec. apply IsValid_true_inv in V. destruct V as [Hne V].
  apply IsValid_true_iff.
  - rewrite Ec. destruct (chain b); [congruence|]. destruct n; [lia|discriminate].
  - rewrite Ec. intros i previous current Hp Hc.
    rewrite nth_error_firstn in Hp, Hc.
    destruct (i <? n)%nat; [|discriminate]. destruct (S i <? n)%nat; [|discriminate].
    exact (V i previous current Hp Hc).
Qed.

End Detection.

(** ** Further runs on the runtime [Demo] *)

Example main_demo_run :
  main 151 Demo.t0 Demo.t1 DemoMain.t2 (Demo.amount 5) (Demo.amount 2)
  = Done (Println true).
Proof. vm_cast_no_check (@eq_refl _ (Done (Println true))). Qed.

Example main_demo_ledger :
  AddTransactions 151 (CreateBlockchain Demo.t0 2)
    [ mkTransaction Demo.t1 "Alice" "Bob" (Demo.amount 5);
      mkTransaction DemoMain.t2 "John" "Bob" (Demo.amount 2) ]
  = Done DemoMain.ledger2.
Proof. vm_cast_no_check (@eq_refl _ (Done DemoMain.ledger2)). Qed.

Example overwritten_amount_detected :
  IsValid (DemoMain.edited DemoMain.overwritten) = Done false.
Proof. vm_cast_no_check (@eq_refl _ (@Done bool false)). Qed.

Lemma mined1_mined : mine 7 1 Demo.newBlock = Done DemoMain.mined1.
Proof. vm_cast_no_check (@eq_refl _ (Done DemoMain.mined1)). Defined.

Lemma ledger3_built :
  AddTransactions 17 (CreateBlockchain Demo.t0 1) DemoMain.transfers
  = Done DemoMain.ledger3.
Proof. vm_cast_no_check (@eq_refl _ (Done DemoMain.ledger3)). Defined.

Lemma ledger3_reachable : reachable 1 DemoMain.ledger3.
Proof.
  exact (AddTransactions_reachable 1 17 DemoMain.transfers _ _
           (reach_create 1 Demo.t0) ledger3_built).
Defined.

Lemma ledger3_valid : IsValid DemoMain.ledger3 = Done true.
Proof. vm_cast_no_check (@eq_refl _ (@Done bool true)). Defined.

Lemma edited_replaced (x : Block) :
  replaced_at (chain DemoMain.ledger3) (chain (DemoMain.edited x)) 1 x.
Proof.
  split; [reflexivity|]. split; [reflexivity|].
  intros [|[|[|j]]] Hj; try reflexivity. congruence.
Defined.

Lemma mine_returns_first_proof_witness :
  mine 7 1 Demo.newBlock = Done DemoMain.mined1
  /\ HasPrefix (hash DemoMain.mined1) (zeros 1) = true.
Proof.
  split; [exact mined1_mined|].
  exact (proj1 (proj2 (proj2 (proj2
           (mine_returns_first_proof 7 1 _ _ mined1_mined))))).
Defined.

Lemma mine_again_returns_at_once_witness :
  0 <= 0 <= 1 /\ mine 1 0 DemoMain.mined1 = Done DemoMain.mined1.
Proof.
  assert (0 <= 0 <= 1) as H by lia.
  split; [exact H|].
  exact (proj2 (mine_again_returns_at_once 7 0 1 0 _ _ mined1_mined H)).
Defined.

Lemma built_chain_linked_witness :
  reachable 1 DemoMain.ledger3 /\ linked (chain DemoMain.ledger3).
Proof.
  split; [exact ledger3_reachable|].
  exact (built_chain_linked 1 DemoMain.ledger3 ledger3_reachable).
Defined.

Lemma genesis_and_difficulty_fixed_witness :
  reachable 1 DemoMain.ledger3
  /\ nth_error (chain DemoMain.ledger3) 0 = Some (genesisBlock DemoMain.ledger3).
Proof.
  split; [exact ledger3_reachable|].
  exact (proj1 (proj2 (genesis_and_difficulty_fixed 1 DemoMain.ledger3
                         ledger3_reachable))).
Defined.


Lemma AddTransactions_appends_in_order_witness :
  exists added,
    chain DemoMain.ledger3 = chain (CreateBlockchain Demo.t0 1) ++ added
    /\ map data added = map payload DemoMain.transfers
    /\ map timestamp added = map tx_now DemoMain.transfers
    /\ List.length (chain DemoMain.ledger3)
       = (List.length (chain (CreateBlockchain Demo.t0 1))
          + List.length DemoMain.transfers)%nat
    /\ genesisBlock DemoMain.ledger3 = genesisBlock (CreateBlockchain Demo.t0 1)
    /\ difficulty DemoMain.ledger3 = difficulty (CreateBlockchain Demo.t0 1).
Proof.
  exact (AddTransactions_appends_in_order 17 DemoMain.transfers _ _ ledger3_built).
Defined.

Lemma built_ledger_IsValid_witness :
  List.length (chain DemoMain.ledger3) = 3%nat
  /\ IsValid DemoMain.ledger3 = Done (0 <? 1).
Proof.
  exact (built_ledger_IsValid 17 Demo.t0 1 DemoMain.transfers _ ledger3_built).
Defined.

Lemma AddTransaction_then_IsValid_witness :
  AddTransaction 17 Demo.t2 Demo.ledger1 "John" "Bob" (Demo.amount 2)
  = Done DemoMain.ledger3
  /\ IsValid DemoMain.ledger3
     = if difficulty Demo.ledger1 =? 0 then Done false else IsValid Demo.ledger1.
Proof.
  assert (AddTransaction 17 Demo.t2 Demo.ledger1 "John" "Bob" (Demo.amount 2)
          = Done DemoMain.ledger3) as H
      by (vm_cast_no_check (@eq_refl _ (Done DemoMain.ledger3))).
  split; [exact H|].
  exact (AddTransaction_then_IsValid 17 Demo.t2 Demo.ledger1 _ "John" "Bob"
           (Demo.amount 2) H).
Defined.

Lemma stored_hash_edit_detected_witness :
  IsValid (DemoMain.edited (set_hash DemoMain.mined1 "00")) = Done false.
Proof.
  apply (stored_hash_edit_detected DemoMain.ledger3 _ 1 DemoMain.mined1 "00").
  - exact ledger3_valid.
  - cbn. lia.
  - reflexivity.
  - discriminate.
  - apply edited_replaced.
Defined.

Lemma previousHash_edit_detected_witness :
  IsValid (DemoMain.edited (set_previousHash DemoMain.mined1 "1")) = Done false.
Proof.
  apply (previousHash_edit_detected DemoMain.ledger3 _ 0 DemoMain.mined1 "1").
  - exact ledger3_valid.
  - reflexivity.
  - discriminate.
  - apply edited_replaced.
Defined.

Lemma content_edit_detected_iff_witness :
  IsValid (DemoMain.edited DemoMain.overwritten)
  = Done (calculateHash DemoMain.overwritten =? hash DemoMain.mined1)%string.
Proof.
  apply (content_edit_detected_iff DemoMain.ledger3 _ 0 DemoMain.mined1).
  - exact ledger3_valid.
  - reflexivity.
  - reflexivity.
  - reflexivity.
  - apply edited_replaced.
Defined.

Lemma first_block_content_unchecked_witness :
  IsValid (mkBlockchain (genesisBlock Demo.ledger0)
             (mkBlock (data DemoMain.mined1) "0" "x" Demo.t2 7
              :: [DemoMain.mined1; DemoMain.mined2]) 5)
  = IsValid DemoMain.ledger3.
Proof.
  apply (first_block_content_unchecked DemoMain.ledger3 _
           (mkBlock None "0" EmptyString Demo.t0 0)
           (mkBlock (data DemoMain.mined1) "0" "x" Demo.t2 7)
           [DemoMain.mined1; DemoMain.mined2]); reflexivity.
Defined.

Lemma truncation_undetected_witness :
  (1 <= 2)%nat /\ IsValid Demo.ledger1 = Done true.
Proof.
  assert (1 <= 2)%nat as H by lia.
  split; [exact H|].
  apply (truncation_undetected DemoMain.ledger3 Demo.ledger1 2).
  - exact ledger3_valid.
  - exact H.
  - reflexivity.
Defined.

Example add_at_max_int :
  AddTransaction 1 Demo.t1 (CreateBlockchain Demo.t0 (2 ^ 63 - 1)) "Alice" "Bob"
                 (Demo.amount 5)
  = Panic "makeslice: len out of range".
Proof. reflexivity. Qed.

Example add_at_difficulty_64_still_mining :
  AddTransaction 3 Demo.t1 (CreateBlockchain Demo.t0 64) "Alice" "Bob" (Demo.amount 5)
  = Running.
Proof. vm_cast_no_check (@eq_refl (Outcome (@Blockchain Demo.runtime)) Running). Qed.
